(** * Verification of the resilient stream decoder of [prolog_agent.stream_patch]

    The development embeds [_patched_receive_messages] (the replacement for
    [SubprocessCLITransport.receive_messages]) and proves the properties of
    the line-buffered JSON decoding, the end-of-stream flush and the exit
    correlation.

    Layout:
    - [PyStr]: the [str] operations the function uses ([in], [split],
      [strip], [lstrip], [startswith], [lower], [join]);
    - [Generator]: the generator, written in a small monad of local variables,
      emitted messages and exceptions, parameterised by [json.loads];
    - [Json]: a reader and writer for JSON documents, an instance of the
      parameter, used to run the decoder on concrete inputs;
    - facts about the [str] operations and about the generator;
    - [Properties]: the properties of the decoder, for any [json.loads];
    - [JsonFacts]: the writer of [Json] read back by its reader;
    - concrete runs.

    The rest of the repository follows the same order: [apply_patch], the
    query extraction of [main.py] ([Agent]) and the Prolog server of
    [prolog_mcp_server.py] ([Prolog]) among the definitions, their
    properties ([MoreProperties], [AgentFacts], [PrologFacts],
    [PrologRuns]) after those of the decoder. *)

From Stdlib Require Import String Ascii List ZArith NArith Lia Bool.
Import ListNotations.

Local Open Scope string_scope.
Local Open Scope bool_scope.

(* ------------------------------------------------------------------ *)
(** ** Python [str] operations

    A [str] is modelled as a [string]; each [ascii] stands for the code point
    of the same number (0 to 255). *)

Module PyStr.

(** The line feed character and the one-character text ["\n"]. *)
Definition LF : ascii := ascii_of_nat 10.
Definition nl : string := String LF "".

(** [s.startswith(p)]. *)
Fixpoint startswith (s p : string) {struct p} : bool :=
  match p with
  | "" => true
  | String c p' =>
      match s with
      | "" => false
      | String d s' => Ascii.eqb d c && startswith s' p'
      end
  end.

(** [needle in hay]. *)
Fixpoint str_in (needle hay : string) : bool :=
  startswith hay needle ||
  match hay with
  | "" => false
  | String _ hay' => str_in needle hay'
  end.

(** [s[n:]]. *)
Fixpoint drop (n : nat) (s : string) : string :=
  match n, s with
  | O, _ => s
  | S _, "" => ""
  | S n', String _ s' => drop n' s'
  end.

(** The text before the first occurrence of [sep] and the text after it;
    [None] when [sep] does not occur. *)
Fixpoint partition (sep s : string) : option (string * string) :=
  if startswith s sep then Some ("", drop (String.length sep) s)
  else match s with
       | "" => None
       | String c s' =>
           match partition sep s' with
           | Some (a, b) => Some (String c a, b)
           | None => None
           end
       end.

(** [s.split(sep, 1)]: at most one split, so one or two pieces. *)
Definition split1 (sep s : string) : list string :=
  match partition sep s with
  | Some (a, b) => [a; b]
  | None => [s]
  end.

(** [c.isspace()] for the code points below 256: TAB to CR, FS to US, the
    space, NEL and the no-break space. *)
Definition isspace (c : ascii) : bool :=
  let n := N_of_ascii c in
  ((9 <=? n) && (n <=? 13) || (28 <=? n) && (n <=? 32) ||
   (n =? 133) || (n =? 160))%N.

(** [s.lstrip()]. *)
Fixpoint lstrip (s : string) : string :=
  match s with
  | "" => ""
  | String c s' => if isspace c then lstrip s' else s
  end.

(** [s.rstrip()]. *)
Fixpoint rstrip (s : string) : string :=
  match s with
  | "" => ""
  | String c s' =>
      match rstrip s' with
      | "" => if isspace c then "" else String c ""
      | r => String c r
      end
  end.

(** [s.strip()]. *)
Definition strip (s : string) : string := rstrip (lstrip s).

(** Truth value of a [str]: non-empty. *)
Definition truthy (s : string) : bool :=
  match s with "" => false | _ => true end.

(** [c.lower()] for the code points below 256: A to Z and the Latin-1
    capitals (all of U+00C0 to U+00DE but the multiplication sign). *)
Definition lower_char (c : ascii) : ascii :=
  let n := N_of_ascii c in
  if ((65 <=? n) && (n <=? 90) ||
      (192 <=? n) && (n <=? 222) && negb (n =? 215))%N
  then ascii_of_N (n + 32) else c.

(** [s.lower()]. *)
Fixpoint lower (s : string) : string :=
  match s with
  | "" => ""
  | String c s' => String (lower_char c) (lower s')
  end.

(** [sep.join(xs)]. *)
Definition join (sep : string) (xs : list string) : string :=
  String.concat sep xs.

End PyStr.
Import PyStr.

(* ------------------------------------------------------------------ *)
(** ** The generator [_patched_receive_messages] *)

(** What a computation ends with: a value or a raised exception. *)
Inductive outcome (E A : Type) : Type :=
| Return (a : A)
| Raise (e : E).
Arguments Return {E A} a.
Arguments Raise {E A} e.

(** The process handle after [wait()]: [returncode] is an [int] or [None]. *)
Record Process : Type := { returncode : option Z }.

(** How an [anyio] receive stream stops: the iteration ends, or the next
    read raises [ClosedResourceError]. *)
Inductive stream_end : Type := EndOfStream | ClosedResource.

(** A receive stream: the items it delivers, then how it stops. *)
Record Stream : Type := { items : list string; stops : stream_end }.

(** The fields of [SubprocessCLITransport] the method reads; an absent
    ([None]) process or stream is falsy, a present one truthy. *)
Record SubprocessCLITransport : Type := {
  _process : option Process;
  _stdout_stream : option Stream;
  _stderr_stream : option Stream
}.

(** The two local variables of the method that are assigned more than once. *)
Record locals : Type := { stderr_lines : list string; buffer : string }.

(** How a loop body ends: falls through or [continue], or [break]. *)
Inductive ctl : Type := Continue | Break.

Section Generator.

(** [json.loads] belongs to the Python library: it is a parameter, with
    the type of decoded documents and of its [JSONDecodeError]. *)
Context {Message JSONDecodeError : Type}.
Variable json_loads : string -> outcome JSONDecodeError Message.

(** The exceptions that occur in the method.  [LoopBudget] is not a Python
    exception: the model raises it when a [while] loop runs longer than
    the bound given for it; [while_lines_returns] shows it never does. *)
Inductive exn : Type :=
| JSONDecodeErrorExn (e : JSONDecodeError)
| ClosedResourceError
| ValueError
| CLIConnectionError (message : string)
| CLIJSONDecodeError (line : string) (original_error : JSONDecodeError)
| ProcessError (message : string) (exit_code : Z) (stderr : string)
| LoopBudget.

(** A piece of the generator body: from the locals to the messages
    yielded, the locals afterwards and the value or exception.  The
    consumer is one that pulls every message (it never closes the
    generator early). *)
Definition Gen (A : Type) : Type :=
  locals -> list Message * locals * outcome exn A.

(** A value, with nothing yielded and the locals as they are. *)
Definition ret {A} (a : A) : Gen A := fun l => ([], l, Return a).

(** [m] and then [f] on its value; an exception out of [m] ends both. *)
Definition bind {A B} (m : Gen A) (f : A -> Gen B) : Gen B :=
  fun l =>
    match m l with
    | (out, l', Return a) =>
        let '(out', l'', r) := f a l' in ((out ++ out')%list, l'', r)
    | (out, l', Raise e) => (out, l', Raise e)
    end.

(** [raise e]. *)
Definition raise {A} (e : exn) : Gen A := fun l => ([], l, Raise e).

(** [yield v]. *)
Definition yield (v : Message) : Gen unit := fun l => ([v], l, Return tt).

(** [try: m except ...: h], where [h e] is [None] when no [except] clause
    matches [e]. *)
Definition try_except {A} (m : Gen A) (h : exn -> option (Gen A)) : Gen A :=
  fun l =>
    match m l with
    | (out, l', Return a) => (out, l', Return a)
    | (out, l', Raise e) =>
        match h e with
        | Some k => let '(out', l'', r) := k l' in ((out ++ out')%list, l'', r)
        | None => (out, l', Raise e)
        end
    end.

(** Reading and assigning the local [buffer]. *)
Definition get_buffer : Gen string := fun l => ([], l, Return (buffer l)).

Definition set_buffer (b : string) : Gen unit :=
  fun l => ([], {| stderr_lines := stderr_lines l; buffer := b |}, Return tt).

(** Reading and assigning the local [stderr_lines]. *)
Definition get_stderr_lines : Gen (list string) :=
  fun l => ([], l, Return (stderr_lines l)).

Definition set_stderr_lines (xs : list string) : Gen unit :=
  fun l => ([], {| stderr_lines := xs; buffer := buffer l |}, Return tt).

Notation "x <- m ;; k" := (bind m (fun x => k))
  (at level 61, m at next level, right associativity).
Notation "m ;; k" := (bind m (fun _ => k))
  (at level 61, right associativity).

(** [json.loads(s)] inside the generator: its failure is raised as
    [json.JSONDecodeError]. *)
Definition loads (s : string) : Gen Message :=
  match json_loads s with
  | Return v => ret v
  | Raise e => raise (JSONDecodeErrorExn e)
  end.

(** [a, b = xs]: unpacking anything but two items raises [ValueError]. *)
Definition unpack2 (xs : list string) : Gen (string * string) :=
  match xs with
  | [a; b] => ret (a, b)
  | _ => raise ValueError
  end.

(** [for x in xs: body(x)], with no [break] in the body. *)
Fixpoint for_each (xs : list string) (body : string -> Gen unit) : Gen unit :=
  match xs with
  | [] => ret tt
  | x :: xs' => body x ;; for_each xs' body
  end.

(** [async for x in stream: body(x)]: the items in order, then the end of
    the iteration or [ClosedResourceError] out of the read. *)
Definition async_for (s : Stream) (body : string -> Gen unit) : Gen unit :=
  for_each (items s) body ;;
  match stops s with
  | EndOfStream => ret tt
  | ClosedResource => raise ClosedResourceError
  end.

(** [while cond: body], cut at [fuel] iterations. *)
Fixpoint while_ (fuel : nat) (cond : Gen bool) (body : Gen ctl) : Gen unit :=
  match fuel with
  | O => raise LoopBudget
  | S fuel' =>
      c <- cond ;;
      if c then
        k <- body ;;
        match k with
        | Continue => while_ fuel' cond body
        | Break => ret tt
        end
      else ret tt
  end.

(** [except anyio.ClosedResourceError: pass]. *)
Definition except_closed_resource (e : exn) : option (Gen unit) :=
  match e with
  | ClosedResourceError => Some (ret tt)
  | _ => None
  end.

(** Lines 56-64, the task that drains stderr. *)
Definition _read_stderr (self : SubprocessCLITransport) : Gen unit :=
  match _stderr_stream self with
  | Some stream =>
      try_except
        (async_for stream (fun line =>
           xs <- get_stderr_lines ;;
           set_stderr_lines (xs ++ [strip line])%list))
        except_closed_resource
  | None => ret tt
  end.

(** Lines 77-95, one turn of the [while] loop. *)
Definition line_step : Gen ctl :=
  b <- get_buffer ;;
  p <- unpack2 (split1 nl b) ;;
  let '(line, rest) := p in
  set_buffer rest ;;
  let line_str := strip line in
  if negb (truthy line_str) then ret Continue
  else
    try_except
      (data <- loads line_str ;;
       yield data ;;
       ret Continue)
      (fun e =>
         match e with
         | JSONDecodeErrorExn _ =>
             Some (b' <- get_buffer ;;
                   set_buffer (line ++ nl ++ b') ;;
                   ret Break)
         | _ => None
         end).

(** Line 76, the condition of the [while] loop. *)
Definition has_line : Gen bool :=
  b <- get_buffer ;; ret (str_in nl b).

(** Lines 76-95, the [while] loop over the complete lines of the buffer.
    A turn that does not [break] takes at least the line feed off the
    buffer, so the length of the buffer bounds the number of turns. *)
Definition while_lines : Gen unit :=
  b <- get_buffer ;;
  while_ (S (String.length b)) has_line line_step.

(** Lines 73-95, the body of the [async for] over stdout. *)
Definition on_chunk (chunk : string) : Gen unit :=
  b <- get_buffer ;;
  set_buffer (b ++ chunk) ;;
  while_lines.

(** Lines 71-99. *)
Definition read_stdout (stdout : Stream) : Gen unit :=
  try_except (async_for stdout on_chunk) except_closed_resource.

(** Lines 68-99, the task group: the block is left when both its body and
    the task started in it are done.  The drain task yields nothing and
    only appends to [stderr_lines], which the body does not touch, so
    their interleaving is immaterial (see [task_group_order]); the model
    runs the body first. *)
Definition task_group (task body : Gen unit) : Gen unit :=
  body ;; task.

(** Lines 102-110, the flush of what is left in the buffer. *)
Definition flush : Gen unit :=
  b <- get_buffer ;;
  if truthy (strip b) then
    try_except
      (data <- loads (strip b) ;;
       yield data)
      (fun e =>
         match e with
         | JSONDecodeErrorExn e' =>
             Some (if startswith (lstrip b) "{" || startswith (lstrip b) "["
                   then raise (CLIJSONDecodeError b e')
                   else ret tt)
         | _ => None
         end)
  else ret tt.

(** Lines 113-121, the exit code set against what stderr said. *)
Definition check_exit (p : Process) : Gen unit :=
  match returncode p with
  | None => ret tt
  | Some code =>
      if (code =? 0)%Z then ret tt
      else
        xs <- get_stderr_lines ;;
        let stderr_output := join nl xs in
        if truthy stderr_output && str_in "error" (lower stderr_output)
        then raise (ProcessError "CLI process failed" code stderr_output)
        else ret tt
  end.

(** Lines 50-121. *)
Definition _patched_receive_messages (self : SubprocessCLITransport)
  : Gen unit :=
  match _process self, _stdout_stream self with
  | Some p, Some stdout =>
      set_stderr_lines [] ;;
      set_buffer "" ;;
      task_group (_read_stderr self) (read_stdout stdout) ;;
      flush ;;
      check_exit p
  | _, _ => raise (CLIConnectionError "Not connected")
  end.

(** The locals before the method has assigned them. *)
Definition unbound : locals := {| stderr_lines := []; buffer := "" |}.

(** What the consumer sees: the messages in order, and the exception that
    ends the sequence if one does. *)
Definition emitted (self : SubprocessCLITransport) : list Message :=
  fst (fst (_patched_receive_messages self unbound)).

Definition terminal (self : SubprocessCLITransport) : option exn :=
  match snd (_patched_receive_messages self unbound) with
  | Return _ => None
  | Raise e => Some e
  end.

(** *** The loops as relations

    [scans b out b']: the [while] loop entered with buffer [b] yields the
    messages [out] and leaves the buffer [b'].  One rule per way through a
    turn of the loop: no line feed in the buffer, a blank line, a line that
    decodes, a line that does not. *)
Inductive scans : string -> list Message -> string -> Prop :=
| scans_idle b :
    str_in nl b = false ->
    scans b [] b
| scans_blank line rest out b' :
    str_in nl line = false ->
    truthy (strip line) = false ->
    scans rest out b' ->
    scans (line ++ nl ++ rest) out b'
| scans_line line rest v out b' :
    str_in nl line = false ->
    truthy (strip line) = true ->
    json_loads (strip line) = Return v ->
    scans rest out b' ->
    scans (line ++ nl ++ rest) (v :: out) b'
| scans_defer line rest e :
    str_in nl line = false ->
    truthy (strip line) = true ->
    json_loads (strip line) = Raise e ->
    scans (line ++ nl ++ rest) [] (line ++ nl ++ rest).

(** [reads b chunks out b']: the [async for] entered with buffer [b] and
    given the fragments [chunks] yields [out] and leaves [b']. *)
Inductive reads : string -> list string -> list Message -> string -> Prop :=
| reads_nil b : reads b [] [] b
| reads_cons b chunk chunks out1 b1 out2 b2 :
    scans (b ++ chunk) out1 b1 ->
    reads b1 chunks out2 b2 ->
    reads b (chunk :: chunks) (out1 ++ out2)%list b2.

(** *** Notions of the specification *)

(** The lines taken off the front of the text received, each of them
    blank or decoded, with the messages decoded from them. *)
Inductive consumed : list string -> list Message -> Prop :=
| consumed_nil : consumed [] []
| consumed_blank line lines out :
    str_in nl line = false ->
    truthy (strip line) = false ->
    consumed lines out ->
    consumed (line :: lines) out
| consumed_line line lines v out :
    str_in nl line = false ->
    truthy (strip line) = true ->
    json_loads (strip line) = Return v ->
    consumed lines out ->
    consumed (line :: lines) (v :: out).

(** The text of lines, each followed by its line feed. *)
Fixpoint unlines (lines : list string) : string :=
  match lines with
  | [] => ""
  | line :: lines' => line ++ nl ++ unlines lines'
  end.

(** All the text of a list of fragments. *)
Fixpoint joined (chunks : list string) : string :=
  match chunks with
  | [] => ""
  | chunk :: chunks' => chunk ++ joined chunks'
  end.

(** [s] is a serialization of [v] on one line: it has no line feed and
    the reader gives [v] back for it. *)
Definition serializes (s : string) (v : Message) : Prop :=
  str_in nl s = false /\
  truthy (strip s) = true /\
  json_loads (strip s) = Return v.

(** A value is valid for the writer [json_dumps] when its serialization
    is one line that reads back as the value. *)
Definition valid (json_dumps : Message -> string) (v : Message) : Prop :=
  serializes (json_dumps v) v.

(** The DiagnosticLog: the lines of the diagnostic stream, trimmed, in
    order; empty without a diagnostic stream. *)
Definition diagnostic_log (self : SubprocessCLITransport) : list string :=
  match _stderr_stream self with
  | Some stream => map strip (items stream)
  | None => []
  end.

(** The end of the sequence with a [ProcessError] taken for a plain
    end. *)
Definition without_process_error (t : option exn) : option exn :=
  match t with
  | Some (ProcessError _ _ _) => None
  | _ => t
  end.

End Generator.

(** Two characters are the same letter up to case: equal, or one is the
    capital (A to Z) of the other. *)
Definition same_letter (c d : ascii) : bool :=
  let upper_of (x y : ascii) :=
    ((65 <=? N_of_ascii x) && (N_of_ascii x <=? 90) &&
     (N_of_ascii y =? N_of_ascii x + 32))%N in
  Ascii.eqb c d || upper_of c d || upper_of d c.

(** [s] starts with [w] up to case. *)
Fixpoint starts_ci (s w : string) {struct w} : bool :=
  match w with
  | "" => true
  | String d w' =>
      match s with
      | "" => false
      | String c s' => same_letter c d && starts_ci s' w'
      end
  end.

(** [w] occurs in [s] up to case. *)
Fixpoint occurs_ci (w s : string) : bool :=
  starts_ci s w ||
  match s with
  | "" => false
  | String _ s' => occurs_ci w s'
  end.

(* ------------------------------------------------------------------ *)
(** ** A JSON reader and writer

    [json.loads] and [json.dumps] (default options) on the documents made of
    [null], the booleans, integers, strings, arrays and objects.  What the
    Python library reads beyond these (number literals with a fraction or
    an exponent, [NaN], [Infinity], and string escapes for code points from
    256 up) the reader refuses with [Unsupported]. *)

Module Json.

#[local] Set Warnings "-register-all".

Inductive value : Type :=
| Null
| Bool (b : bool)
| Int (z : Z)
| Str (s : string)
| Arr (xs : list value)
| Obj (kvs : list (string * value)).

(** The failures of the reader, named after the messages of
    [json.JSONDecodeError]; [TooDeep] is what the reader answers when its
    budget of calls runs out. *)
Inductive error : Type :=
| ExpectingValue
| ExtraData
| UnterminatedString
| InvalidControlCharacter
| InvalidEscape
| ExpectingPropertyName
| ExpectingColon
| ExpectingComma
| Unsupported
| TooDeep.

Definition code (c : ascii) : N := N_of_ascii c.

(** JSON white space: space, TAB, LF, CR. *)
Definition is_ws (c : ascii) : bool :=
  ((code c =? 32) || (code c =? 9) || (code c =? 10) || (code c =? 13))%N.

Fixpoint skip_ws (s : string) : string :=
  match s with
  | String c s' => if is_ws c then skip_ws s' else s
  | "" => ""
  end.

Definition is_digit (c : ascii) : bool :=
  ((48 <=? code c) && (code c <=? 57))%N.

(** *** Numbers *)

(** Reads decimal digits onto [acc]. *)
Fixpoint read_digits (acc : N) (s : string) : N * string :=
  match s with
  | String c s' =>
      if is_digit c then read_digits (acc * 10 + (code c - 48)) s'
      else (acc, s)
  | "" => (acc, "")
  end.

(** The integer part [0|[1-9][0-9]*]. *)
Definition read_nat (s : string) : outcome error (N * string) :=
  match s with
  | String c s' =>
      if (code c =? 48)%N then Return (0%N, s')
      else if is_digit c then Return (read_digits 0 s)
      else Raise ExpectingValue
  | "" => Raise ExpectingValue
  end.

(** A fraction or an exponent follows. *)
Definition float_follows (s : string) : bool :=
  match s with
  | String c (String d _) =>
      (Ascii.eqb c "." && is_digit d) ||
      ((Ascii.eqb c "e" || Ascii.eqb c "E") &&
       (is_digit d || Ascii.eqb d "-" || Ascii.eqb d "+"))
  | _ => false
  end.

Definition read_int (s : string) : outcome error (Z * string) :=
  let '(neg, s1) :=
    match s with
    | String c s' => if (code c =? 45)%N then (true, s') else (false, s)
    | "" => (false, s)
    end in
  match read_nat s1 with
  | Return (n, rest) =>
      if float_follows rest then Raise Unsupported
      else Return (if neg then (- Z.of_N n)%Z else Z.of_N n, rest)
  | Raise e => Raise e
  end.

Definition digit_char (n : N) : ascii := ascii_of_N (48 + n).

(** The decimal digits of [n] in front of [acc]; [fuel] bounds their
    number. *)
Fixpoint write_digits (fuel : nat) (n : N) (acc : string) : string :=
  match fuel with
  | O => acc
  | S fuel' =>
      let acc' := String (digit_char (n mod 10)) acc in
      if (n / 10 =? 0)%N then acc' else write_digits fuel' (n / 10) acc'
  end.

Definition write_nat (n : N) : string :=
  write_digits (S (N.to_nat (N.log2 n))) n "".

Definition write_int (z : Z) : string :=
  match z with
  | Zneg p => String "-" (write_nat (Npos p))
  | _ => write_nat (Z.to_N z)
  end.

(** *** Strings *)

Definition hex_value (c : ascii) : option N :=
  let n := code c in
  if ((48 <=? n) && (n <=? 57))%N then Some (n - 48)%N
  else if ((97 <=? n) && (n <=? 102))%N then Some (n - 87)%N
  else if ((65 <=? n) && (n <=? 70))%N then Some (n - 55)%N
  else None.

Definition hex_digit (n : N) : ascii :=
  if (n <? 10)%N then ascii_of_N (48 + n) else ascii_of_N (87 + n).

(** The code point of [\uXXXX] from its four hexadecimal digits. *)
Definition read_u4 (a b c d : ascii) : outcome error ascii :=
  match hex_value a, hex_value b, hex_value c, hex_value d with
  | Some x, Some y, Some z, Some w =>
      if ((x =? 0) && (y =? 0))%N then Return (ascii_of_N (z * 16 + w))
      else Raise Unsupported
  | _, _, _, _ => Raise InvalidEscape
  end.

(** The character an escape letter stands for. *)
Definition unescape (e : ascii) : option ascii :=
  let n := code e in
  if ((n =? 34) || (n =? 92) || (n =? 47))%N then Some e
  else if (n =? 98)%N then Some (ascii_of_nat 8)
  else if (n =? 102)%N then Some (ascii_of_nat 12)
  else if (n =? 110)%N then Some (ascii_of_nat 10)
  else if (n =? 114)%N then Some (ascii_of_nat 13)
  else if (n =? 116)%N then Some (ascii_of_nat 9)
  else None.

(** [c] in front of the string a reader returns. *)
Definition cons_char (c : ascii) (r : outcome error (string * string))
  : outcome error (string * string) :=
  match r with
  | Return (t, rest) => Return (String c t, rest)
  | Raise x => Raise x
  end.

(** The characters of a string after its opening quote, up to the closing
    one (code 34); code 92 is the backslash and 117 the letter u. *)
Fixpoint read_chars (s : string) : outcome error (string * string) :=
  match s with
  | "" => Raise UnterminatedString
  | String c rest =>
      if (code c =? 34)%N then Return ("", rest)
      else if (code c =? 92)%N then
        match rest with
        | "" => Raise UnterminatedString
        | String e rest1 =>
            if (code e =? 117)%N then
              match rest1 with
              | String h1 (String h2 (String h3 (String h4 rest2))) =>
                  match read_u4 h1 h2 h3 h4 with
                  | Return x => cons_char x (read_chars rest2)
                  | Raise x => Raise x
                  end
              | _ => Raise InvalidEscape
              end
            else
              match unescape e with
              | Some x => cons_char x (read_chars rest1)
              | None => Raise InvalidEscape
              end
        end
      else if (code c <? 32)%N then Raise InvalidControlCharacter
      else cons_char c (read_chars rest)
  end.

Definition quote : ascii := ascii_of_nat 34.
Definition backslash : ascii := ascii_of_nat 92.

(** The escape of one character under [ensure_ascii]: the quote, the
    backslash and everything outside space to tilde. *)
Definition write_char (c : ascii) : string :=
  let n := code c in
  if (n =? 34)%N then String backslash (String quote "")
  else if (n =? 92)%N then String backslash (String backslash "")
  else if (n =? 8)%N then String backslash "b"
  else if (n =? 12)%N then String backslash "f"
  else if (n =? 10)%N then String backslash "n"
  else if (n =? 13)%N then String backslash "r"
  else if (n =? 9)%N then String backslash "t"
  else if ((32 <=? n) && (n <=? 126))%N then String c ""
  else String backslash (String "u" (String "0" (String "0"
         (String (hex_digit (n / 16)) (String (hex_digit (n mod 16)) ""))))).

Fixpoint write_chars (s : string) : string :=
  match s with
  | "" => ""
  | String c s' => write_char c ++ write_chars s'
  end.

Definition write_string (s : string) : string :=
  String quote (write_chars s ++ String quote "").

(** *** Documents *)

(** [d[k] = v] on a dictionary kept in insertion order: a key that is
    there keeps its place and takes the new value. *)
Fixpoint dict_set (kvs : list (string * value)) (k : string) (v : value)
  : list (string * value) :=
  match kvs with
  | [] => [(k, v)]
  | (k', v') :: kvs' =>
      if String.eqb k' k then (k', v) :: kvs'
      else (k', v') :: dict_set kvs' k v
  end.

(** The reader; [fuel] bounds the depth of the calls. *)
Fixpoint read_value (fuel : nat) (s : string) : outcome error (value * string) :=
  match fuel with
  | O => Raise TooDeep
  | S fuel' =>
      match s with
      | "" => Raise ExpectingValue
      | String c s' =>
          let n := code c in
          if (n =? 34)%N then
            match read_chars s' with
            | Return (t, rest) => Return (Str t, rest)
            | Raise x => Raise x
            end
          else if (n =? 123)%N then
            match skip_ws s' with
            | String d s'' =>
                if (code d =? 125)%N then Return (Obj [], s'')
                else if (code d =? 34)%N then read_members fuel' [] s''
                else Raise ExpectingPropertyName
            | "" => Raise ExpectingPropertyName
            end
          else if (n =? 91)%N then
            match skip_ws s' with
            | String d s'' =>
                if (code d =? 93)%N then Return (Arr [], s'')
                else read_elements fuel' [] (skip_ws s')
            | "" => Raise ExpectingValue
            end
          else if startswith s "null" then Return (Null, drop 4 s)
          else if startswith s "true" then Return (Bool true, drop 4 s)
          else if startswith s "false" then Return (Bool false, drop 5 s)
          else if startswith s "NaN" || startswith s "Infinity"
                  || startswith s "-Infinity" then Raise Unsupported
          else
            match read_int s with
            | Return (z, rest) => Return (Int z, rest)
            | Raise x => Raise x
            end
      end
  end

(** The elements of an array from the first character of an element on;
    [acc] holds the elements read so far, last first. *)
with read_elements (fuel : nat) (acc : list value) (s : string)
  : outcome error (value * string) :=
  match fuel with
  | O => Raise TooDeep
  | S fuel' =>
      match read_value fuel' s with
      | Return (v, rest) =>
          match skip_ws rest with
          | String d rest' =>
              if (code d =? 93)%N then Return (Arr (rev (v :: acc)), rest')
              else if (code d =? 44)%N
              then read_elements fuel' (v :: acc) (skip_ws rest')
              else Raise ExpectingComma
          | "" => Raise ExpectingComma
          end
      | Raise x => Raise x
      end
  end

(** The members of an object from after the opening quote of a key on;
    [acc] is the dictionary built so far. *)
with read_members (fuel : nat) (acc : list (string * value)) (s : string)
  : outcome error (value * string) :=
  match fuel with
  | O => Raise TooDeep
  | S fuel' =>
      match read_chars s with
      | Return (k, rest) =>
          match skip_ws rest with
          | String d rest' =>
              if (code d =? 58)%N then
                match read_value fuel' (skip_ws rest') with
                | Return (v, rest1) =>
                    match skip_ws rest1 with
                    | String d' rest2 =>
                        if (code d' =? 125)%N
                        then Return (Obj (dict_set acc k v), rest2)
                        else if (code d' =? 44)%N then
                          match skip_ws rest2 with
                          | String q rest3 =>
                              if (code q =? 34)%N
                              then read_members fuel' (dict_set acc k v) rest3
                              else Raise ExpectingPropertyName
                          | "" => Raise ExpectingPropertyName
                          end
                        else Raise ExpectingComma
                    | "" => Raise ExpectingComma
                    end
                | Raise x => Raise x
                end
              else Raise ExpectingColon
          | "" => Raise ExpectingColon
          end
      | Raise x => Raise x
      end
  end.

(** [json.loads(s)]: one document with white space around it and nothing
    else. *)
Definition loads (s : string) : outcome error value :=
  match read_value (S (2 * String.length s)) (skip_ws s) with
  | Return (v, rest) =>
      match skip_ws rest with
      | "" => Return v
      | _ => Raise ExtraData
      end
  | Raise x => Raise x
  end.

(** The items of an array and the members of an object as [json.dumps]
    writes them, given the writer of a value: items separated by [", "],
    keys from values by [": "]. *)
Section Writers.

Variable write : value -> string.

Fixpoint write_items (xs : list value) : string :=
  match xs with
  | [] => ""
  | x :: xs' =>
      write x ++ match xs' with
                 | [] => ""
                 | _ :: _ => ", " ++ write_items xs'
                 end
  end.

Fixpoint write_members (kvs : list (string * value)) : string :=
  match kvs with
  | [] => ""
  | (k, x) :: kvs' =>
      write_string k ++ ": " ++ write x ++
      match kvs' with
      | [] => ""
      | _ :: _ => ", " ++ write_members kvs'
      end
  end.

End Writers.

(** [json.dumps(v)]. *)
Fixpoint dumps (v : value) : string :=
  match v with
  | Null => "null"
  | Bool true => "true"
  | Bool false => "false"
  | Int z => write_int z
  | Str s => write_string s
  | Arr xs => "[" ++ write_items dumps xs ++ "]"
  | Obj kvs => "{" ++ write_members dumps kvs ++ "}"
  end.

(** A document as a Python value: no key twice in an object. *)
Inductive wf : value -> Prop :=
| wf_null : wf Null
| wf_bool b : wf (Bool b)
| wf_int z : wf (Int z)
| wf_str s : wf (Str s)
| wf_arr xs : Forall wf xs -> wf (Arr xs)
| wf_obj kvs :
    NoDup (map fst kvs) -> Forall (fun kv => wf (snd kv)) kvs -> wf (Obj kvs).

(** A bound on the depth of the calls the reader makes on the
    serialization of a value. *)
Fixpoint size (v : value) : nat :=
  match v with
  | Arr xs =>
      S ((fix sizes (xs : list value) : nat :=
            match xs with
            | [] => 0
            | x :: xs' => S (size x + sizes xs')
            end) xs)
  | Obj kvs =>
      S ((fix sizes (kvs : list (string * value)) : nat :=
            match kvs with
            | [] => 0
            | (_, x) :: kvs' => S (size x + sizes kvs')
            end) kvs)
  | _ => 1
  end.

Definition sizes (xs : list value) : nat :=
  fold_right (fun x n => S (size x + n)) 0 xs.

Definition member_sizes (kvs : list (string * value)) : nat :=
  fold_right (fun kv n => S (size (snd kv) + n)) 0 kvs.

(** What may follow a value in a document: nothing, a comma or a closing
    bracket or brace. *)
Definition closes (s : string) : bool :=
  match s with
  | "" => true
  | String c _ => ((code c =? 44) || (code c =? 93) || (code c =? 125))%N
  end.

(** The first character of a value: a quote, a bracket, a brace, a minus
    sign, a digit or one of the letters n, t and f. *)
Definition opens_value (c : ascii) : bool :=
  ((code c =? 34) || (code c =? 91) || (code c =? 123) || (code c =? 45) ||
   is_digit c || (code c =? 110) || (code c =? 116) || (code c =? 102))%N.

(** Every character is printable ASCII (space to tilde). *)
Fixpoint printable (s : string) : bool :=
  match s with
  | "" => true
  | String c s' => ((32 <=? code c) && (code c <=? 126))%N && printable s'
  end.

(** The reader gives [v] back for its serialization, in front of what may
    follow a value and with a budget of at least [size v]. *)
Definition reads_back (v : value) : Prop :=
  forall fuel rest, size v <= fuel -> closes rest = true ->
  read_value fuel (dumps v ++ rest) = Return (v, rest).

(** The dictionary the reader builds from [acc] and the members [kvs] read
    in order. *)
Definition dict_of (acc kvs : list (string * value)) : list (string * value) :=
  fold_left (fun d kv => dict_set d (fst kv) (snd kv)) kvs acc.

End Json.


(* ------------------------------------------------------------------ *)
(** ** Concrete runs

    Texts and transports for running the decoder with the reader of
    [Json]. *)

(** [s] with each apostrophe read as a double quote and each vertical bar
    as a line feed. *)
Fixpoint text (s : string) : string :=
  match s with
  | "" => ""
  | String c s' =>
      String (if Ascii.eqb c "'" then Json.quote
              else if Ascii.eqb c "|" then LF else c) (text s')
  end.

(** A transport with the given fragments on stdout, lines on stderr and
    exit code. *)
Definition transport (chunks lines : list string) (code : option Z)
  : SubprocessCLITransport :=
  {| _process := Some {| returncode := code |};
     _stdout_stream := Some {| items := chunks; stops := EndOfStream |};
     _stderr_stream := Some {| items := lines; stops := EndOfStream |} |}.


(** The documents [{"a": 1}], [{"b": 2}] and [{"c": 3}]. *)
Definition doc_a : Json.value := Json.Obj [("a", Json.Int 1)].
Definition doc_b : Json.value := Json.Obj [("b", Json.Int 2)].
Definition doc_c : Json.value := Json.Obj [("c", Json.Int 3)].

(* ------------------------------------------------------------------ *)
(** ** The patch of the transport class

    [apply_patch] of [stream_patch.py].  The class is the pair of its
    attribute [receive_messages] and of [_patched_for_streaming], which is
    absent ([None]) until something sets it. *)

Section Patch.

Context {Message JSONDecodeError : Type}.
Variable json_loads : string -> outcome JSONDecodeError Message.

Record TransportClass : Type := {
  receive_messages : SubprocessCLITransport -> @Gen Message JSONDecodeError unit;
  _patched_for_streaming : option bool
}.

(** [getattr(cls, "_patched_for_streaming", False)]. *)
Definition patched_flag (cls : TransportClass) : bool :=
  match _patched_for_streaming cls with
  | Some flag => flag
  | None => false
  end.

(** Lines 124-132. *)
Definition apply_patch (cls : TransportClass) : TransportClass :=
  if patched_flag cls then cls
  else {| receive_messages := _patched_receive_messages json_loads;
          _patched_for_streaming := Some true |}.

End Patch.

(* ------------------------------------------------------------------ *)
(** ** More [str] operations *)

Module PyText.

(** [s.split(c)] for a separator [c] of one character: the pieces between
    the occurrences of [c], one more than there are occurrences. *)
Fixpoint split_char (c : ascii) (s : string) : list string :=
  match s with
  | "" => [""]
  | String d s' =>
      if Ascii.eqb d c then "" :: split_char c s'
      else match split_char c s' with
           | piece :: pieces => String d piece :: pieces
           | [] => [String d ""]
           end
  end.

(** [s.endswith(p)]. *)
Fixpoint endswith (s p : string) : bool :=
  String.eqb s p ||
  match s with
  | "" => false
  | String _ s' => endswith s' p
  end.

(** [x in xs] for a list of [str]. *)
Fixpoint list_in (x : string) (xs : list string) : bool :=
  match xs with
  | [] => false
  | y :: xs' => String.eqb y x || list_in x xs'
  end.

(** [str(n)] for an [int]: its decimal digits after the sign. *)
Definition str_int (n : Z) : string := Json.write_int n.

End PyText.
Import PyText.

(* ------------------------------------------------------------------ *)
(** ** The agent of [main.py] *)

Module Agent.

(** Lines 33-41, one turn of the loop over the lines: the predicates found
    so far and the line give the predicates found after it. *)
Definition scan_line (predicates : list string) (raw : string) : list string :=
  let line := strip raw in
  if truthy line && negb (startswith line "%") && str_in "(" line then
    if endswith line "." || str_in ":-" line then
      let pred_part := strip (hd "" (split_char "(" line)) in
      if str_in ":-" pred_part then predicates
      else if truthy pred_part && negb (list_in pred_part predicates)
           then (predicates ++ [pred_part])%list
           else predicates
    else predicates
  else predicates.

(** Lines 28-53. *)
Definition _extract_queries_from_content (content : string) : list string :=
  let predicates := fold_left scan_line (split_char LF content) [] in
  let queries := map (fun pred => pred ++ "(_, _)") predicates in
  match queries with
  | [] => ["true"]
  | _ :: _ => queries
  end.

(** The name a line gives: what is in front of its first parenthesis,
    trimmed. *)
Definition predicate_name (raw : string) : string :=
  strip (hd "" (split_char "(" (strip raw))).

(** The line is one the extraction takes a predicate from: not blank, not
    a comment, with a parenthesis, ended by a full stop or holding [:-],
    and with a name that is not empty and does not hold [:-]. *)
Definition defines_predicate (raw : string) : bool :=
  let line := strip raw in
  truthy line && negb (startswith line "%") && str_in "(" line
  && (endswith line "." || str_in ":-" line)
  && negb (str_in ":-" (predicate_name raw))
  && truthy (predicate_name raw).

End Agent.

(* ------------------------------------------------------------------ *)
(** ** The Prolog server of [prolog_mcp_server.py] *)

Module Prolog.

(** The exceptions the module tells apart, each with its text [str(e)]. *)
Inductive exc : Type :=
| TimeoutExpired (msg : string)
| FileNotFoundError (msg : string)
| OSError (msg : string)
| RuntimeError (msg : string)
| OtherException (msg : string).

Definition str_exc (e : exc) : string :=
  match e with
  | TimeoutExpired msg | FileNotFoundError msg | OSError msg
  | RuntimeError msg | OtherException msg => msg
  end.

(** What [subprocess.run] returns. *)
Record CompletedProcess : Type := {
  cp_returncode : Z;
  cp_stdout : string;
  cp_stderr : string
}.

(** The system the module calls: [tempfile.NamedTemporaryFile] gives the
    name of the file it made, [tmp.write] (with the closing of the file)
    and [os.unlink] succeed or raise, [subprocess.run] with its arguments
    and time limit returns or raises. *)
Record World : Type := {
  named_temporary_file : outcome exc string;
  write : string -> string -> option exc;
  subprocess_run : list string -> Z -> outcome exc CompletedProcess;
  unlink : string -> option exc
}.

(** What a call did to the system, in order. *)
Inductive effect : Type :=
| Created (path : string)
| Written (path text : string)
| Run (args : list string) (time_limit : Z)
| Unlinked (path : string).

Record Scryer : Type := { timeout : Z; scryer_path : string }.

(** The dictionary [execute] returns. *)
Record ExecResult : Type := {
  success : bool;
  query : string;
  stdout : string;
  stderr : string;
  returncode : Z
}.

(** Lines 29-40, the loop over the candidates. *)
Fixpoint probe_candidates (w : World) (candidates : list string)
  : outcome exc string :=
  match candidates with
  | [] =>
      Raise (RuntimeError
        "Scryer Prolog not found. Install with: cargo install scryer-prolog")
  | path :: rest =>
      match subprocess_run w [path; "--version"] 2 with
      | Return result =>
          if (cp_returncode result =? 0)%Z then Return path
          else probe_candidates w rest
      | Raise (TimeoutExpired _) | Raise (FileNotFoundError _)
      | Raise (OSError _) => probe_candidates w rest
      | Raise e => Raise e
      end
  end.

(** Lines 22-27; [cargo_bin] is the text of
    [Path.home() / ".cargo" / "bin" / "scryer-prolog"]. *)
Definition candidates (cargo_bin : string) : list string :=
  ["scryer-prolog"; cargo_bin; "/usr/local/bin/scryer-prolog";
   "/usr/bin/scryer-prolog"].

(** Lines 20-42. *)
Definition _find_scryer (w : World) (cargo_bin : string) : outcome exc string :=
  probe_candidates w (candidates cargo_bin).

(** Lines 51-54, the loop over the lines of the code. *)
Fixpoint clean_lines (lines : list string) : list string :=
  match lines with
  | [] => []
  | raw :: rest =>
      let line := strip raw in
      if truthy line && negb (startswith line ":-")
         && negb (startswith line "?-")
      then line :: clean_lines rest
      else clean_lines rest
  end.

(** Lines 49-56, the text written to the temporary file. *)
Definition program_text (prolog_code : string) : string :=
  join nl (clean_lines (split_char LF (strip prolog_code))) ++ nl.

(** Line 60. *)
Definition goal_of (query : string) : string :=
  "once((" ++ query ++ " -> write('TRUE') ; write('FALSE'))), halt".

(** Lines 46-78, the body of the [try]. *)
Definition attempt (w : World) (self : Scryer) (prolog_code query : string)
  : list effect * outcome exc ExecResult :=
  match named_temporary_file w with
  | Raise e => ([], Raise e)
  | Return tmp_path =>
      let text := program_text prolog_code in
      match write w tmp_path text with
      | Some e => ([Created tmp_path], Raise e)
      | None =>
          let args := [scryer_path self; tmp_path; "-g"; goal_of query] in
          let done :=
            [Created tmp_path; Written tmp_path text; Run args (timeout self)] in
          match subprocess_run w args (timeout self) with
          | Raise e => (done, Raise e)
          | Return result =>
              match unlink w tmp_path with
              | Some e => (done, Raise e)
              | None =>
                  ((done ++ [Unlinked tmp_path])%list,
                   Return {| success := (cp_returncode result =? 0)%Z;
                             query := query;
                             stdout := strip (cp_stdout result);
                             stderr := strip (cp_stderr result);
                             returncode := cp_returncode result |})
              end
          end
      end
  end.

(** Lines 44-94. *)
Definition execute (w : World) (self : Scryer) (prolog_code query : string)
  : list effect * ExecResult :=
  match attempt w self prolog_code query with
  | (effects, Return result) => (effects, result)
  | (effects, Raise (TimeoutExpired _)) =>
      (effects,
       {| success := false;
          query := query;
          stdout := "";
          stderr := "Query timed out after " ++ str_int (timeout self)
                    ++ " seconds";
          returncode := (-1)%Z |})
  | (effects, Raise e) =>
      (effects,
       {| success := false;
          query := query;
          stdout := "";
          stderr := "Execution error: " ++ str_exc e;
          returncode := (-1)%Z |})
  end.

(** Lines 100-119, with the global [scryer] as an argument. *)
Definition prolog_query (w : World) (scryer : Scryer)
    (facts_and_rules query : string) : list effect * string :=
  if negb (truthy facts_and_rules) || negb (truthy query) then
    ([], "Error: Both 'facts_and_rules' and 'query' are required")
  else
    let '(effects, result) := execute w scryer facts_and_rules query in
    if success result then
      let output := if truthy (stdout result) then stdout result else "TRUE" in
      (effects,
       "Query: " ++ query ++ nl ++ "Result: SUCCESS" ++ nl ++ "Output: " ++ output)
    else
      (effects,
       "Query: " ++ query ++ nl ++ "Result: FAILED" ++ nl ++ "Error: "
       ++ stderr result).

(** The probe of a candidate exits with status zero. *)
Definition probe_ok (w : World) (path : string) : Prop :=
  exists result,
    subprocess_run w [path; "--version"] 2 = Return result /\
    cp_returncode result = 0%Z.

(** The probe of a candidate makes the loop go on: it exits with another
    status, or raises one of the three exceptions that are caught. *)
Definition probe_skipped (w : World) (path : string) : Prop :=
  (exists result,
     subprocess_run w [path; "--version"] 2 = Return result /\
     cp_returncode result <> 0%Z) \/
  (exists msg,
     subprocess_run w [path; "--version"] 2 = Raise (TimeoutExpired msg) \/
     subprocess_run w [path; "--version"] 2 = Raise (FileNotFoundError msg) \/
     subprocess_run w [path; "--version"] 2 = Raise (OSError msg)).

(** A system for examples: the temporary file is [/tmp/q.pro], writing and
    unlinking succeed, and every process gives [run]. *)
Definition system (run : outcome exc CompletedProcess) : World :=
  {| named_temporary_file := Return "/tmp/q.pro";
     write := fun _ _ => None;
     subprocess_run := fun _ _ => run;
     unlink := fun _ => None |}.

(** A system where only [/usr/bin/scryer-prolog] is installed. *)
Definition system_with_usr_bin : World :=
  {| named_temporary_file := Return "/tmp/q.pro";
     write := fun _ _ => None;
     subprocess_run := fun args _ =>
       match args with
       | path :: _ =>
           if String.eqb path "/usr/bin/scryer-prolog"
           then Return {| cp_returncode := 0; cp_stdout := "";
                          cp_stderr := "" |}
           else Raise (FileNotFoundError "No such file or directory")
       | [] => Raise (OtherException "empty")
       end;
     unlink := fun _ => None |}.

(** The global [scryer] of the examples. *)
Definition scryer_10 : Scryer :=
  {| timeout := 10; scryer_path := "scryer-prolog" |}.

End Prolog.

(* ------------------------------------------------------------------ *)
(** * Facts about the [str] operations *)

Lemma append_nil_r (s : string) : s ++ "" = s.
Proof. induction s as [|c s IH]; simpl; [reflexivity | now rewrite IH]. Qed.

Lemma append_assoc (a b c : string) : (a ++ b) ++ c = a ++ (b ++ c).
Proof. induction a as [|x a IH]; simpl; [reflexivity | now rewrite IH]. Qed.

Lemma length_append (a b : string) :
  String.length (a ++ b) = String.length a + String.length b.
Proof. induction a as [|x a IH]; simpl; [reflexivity | now rewrite IH]. Qed.

Lemma str_in_nl_cons (c : ascii) (s : string) :
  str_in nl (String c s) = Ascii.eqb c LF || str_in nl s.
Proof. simpl. now rewrite andb_true_r. Qed.

Lemma str_in_nl_append (a b : string) :
  str_in nl (a ++ b) = str_in nl a || str_in nl b.
Proof.
  induction a as [|c a IH].
  - reflexivity.
  - change (String c a ++ b) with (String c (a ++ b)).
    rewrite !str_in_nl_cons, IH. now rewrite orb_assoc.
Qed.

Lemma str_in_nl_nl : str_in nl nl = true.
Proof. reflexivity. Qed.

Lemma partition_nl_cons (c : ascii) (s : string) :
  partition nl (String c s) =
  if Ascii.eqb c LF then Some ("", s)
  else match partition nl s with
       | Some (a, b) => Some (String c a, b)
       | None => None
       end.
Proof. simpl. rewrite andb_true_r. reflexivity. Qed.

(** Splitting at the first line feed: the piece before it has none. *)
Lemma partition_nl_append (line rest : string) :
  str_in nl line = false ->
  partition nl (line ++ nl ++ rest) = Some (line, rest).
Proof.
  induction line as [|c line IH]; intros H.
  - reflexivity.
  - change (String c line ++ nl ++ rest) with (String c (line ++ nl ++ rest)).
    rewrite str_in_nl_cons in H. apply orb_false_elim in H as [Hc Hl].
    rewrite partition_nl_cons, Hc, (IH Hl). reflexivity.
Qed.

Lemma partition_nl_none (s : string) :
  str_in nl s = false -> partition nl s = None.
Proof.
  induction s as [|c s IH]; intros H.
  - reflexivity.
  - rewrite str_in_nl_cons in H. apply orb_false_elim in H as [Hc Hs].
    rewrite partition_nl_cons, Hc, (IH Hs). reflexivity.
Qed.

(** A text with a line feed is a line without one, the line feed and a
    rest. *)
Lemma str_in_nl_split (s : string) :
  str_in nl s = true ->
  exists line rest, s = line ++ nl ++ rest /\ str_in nl line = false.
Proof.
  induction s as [|c s IH]; intros H.
  - discriminate.
  - rewrite str_in_nl_cons in H.
    destruct (Ascii.eqb c LF) eqn:Hc.
    + apply Ascii.eqb_eq in Hc. subst c.
      exists "", s. split; reflexivity.
    + destruct (IH H) as (line & rest & -> & Hl).
      exists (String c line), rest. split; [reflexivity|].
      rewrite str_in_nl_cons, Hc, Hl. reflexivity.
Qed.

Lemma split1_nl_append (line rest : string) :
  str_in nl line = false ->
  split1 nl (line ++ nl ++ rest) = [line; rest].
Proof. intros H. unfold split1. now rewrite partition_nl_append. Qed.

Lemma length_line_rest (line rest : string) :
  String.length (line ++ nl ++ rest) = S (String.length line + String.length rest).
Proof. rewrite !length_append. simpl. lia. Qed.


(* ------------------------------------------------------------------ *)
(** * Facts about the generator *)

(** Runs the monad's plumbing and leaves the [str] operations folded. *)
Ltac run_gen :=
  cbn -[nl append strip lstrip startswith str_in split1 join lower
        String.length Z.eqb].

Section GeneratorFacts.

Context {Message JSONDecodeError : Type}.
Variable json_loads : string -> outcome JSONDecodeError Message.

(** One turn on a blank line: the line is dropped. *)
Lemma line_step_blank sl line rest :
  str_in nl line = false ->
  truthy (strip line) = false ->
  line_step json_loads {| stderr_lines := sl; buffer := line ++ nl ++ rest |} =
  ([], {| stderr_lines := sl; buffer := rest |}, Return Continue).
Proof.
  intros Hl Hb. unfold line_step, bind, get_buffer, unpack2. cbn [buffer].
  rewrite (split1_nl_append _ _ Hl). run_gen.
  rewrite Hb. reflexivity.
Qed.

(** One turn on a line that decodes: the message is yielded. *)
Lemma line_step_value sl line rest v :
  str_in nl line = false ->
  truthy (strip line) = true ->
  json_loads (strip line) = Return v ->
  line_step json_loads {| stderr_lines := sl; buffer := line ++ nl ++ rest |} =
  ([v], {| stderr_lines := sl; buffer := rest |}, Return Continue).
Proof.
  intros Hl Hb Hv. unfold line_step, bind, get_buffer, unpack2. cbn [buffer].
  rewrite (split1_nl_append _ _ Hl). run_gen.
  rewrite Hb. unfold try_except, loads. rewrite Hv. reflexivity.
Qed.

(** One turn on a line that does not decode: the buffer is put back as
    it was and the loop is left. *)
Lemma line_step_defer sl line rest e :
  str_in nl line = false ->
  truthy (strip line) = true ->
  json_loads (strip line) = Raise e ->
  line_step json_loads {| stderr_lines := sl; buffer := line ++ nl ++ rest |} =
  ([], {| stderr_lines := sl; buffer := line ++ nl ++ rest |}, Return Break).
Proof.
  intros Hl Hb Hv. unfold line_step, bind, get_buffer, unpack2. cbn [buffer].
  rewrite (split1_nl_append _ _ Hl). run_gen.
  rewrite Hb. unfold try_except, loads. rewrite Hv. reflexivity.
Qed.

(** The loop, one turn unfolded. *)
Lemma while_unfold fuel l :
  while_ (S fuel) has_line (line_step json_loads) l =
  if str_in nl (buffer l) then
    match line_step json_loads l with
    | (out, l', Return Continue) =>
        let '(out', l'', r) :=
          while_ fuel has_line (line_step json_loads) l' in
        ((out ++ out')%list, l'', r)
    | (out, l', Return Break) => (out, l', Return tt)
    | (out, l', Raise e) => (out, l', Raise e)
    end
  else ([], l, Return tt).
Proof.
  cbn [while_]. unfold bind at 1. unfold has_line at 1, bind at 1, get_buffer.
  cbn [ret app]. destruct (str_in nl (buffer l)); [|reflexivity].
  unfold bind at 1.
  destruct (line_step json_loads l) as [[out l'] [[|]|e]]; cbn [app].
  - destruct (while_ fuel has_line (line_step json_loads) l') as [[out' l''] r].
    reflexivity.
  - unfold ret. now rewrite app_nil_r.
  - reflexivity.
Qed.

(** The loop does what [scans] says, whatever fuel above the length of
    the buffer it is given. *)
Lemma scans_run b out b' :
  scans json_loads b out b' ->
  forall fuel sl, String.length b < fuel ->
  while_ fuel has_line (line_step json_loads)
    {| stderr_lines := sl; buffer := b |} =
  (out, {| stderr_lines := sl; buffer := b' |}, Return tt).
Proof.
  induction 1 as [b Hb | line rest out b' Hl Hs _ IH
                 | line rest v out b' Hl Hs Hv _ IH | line rest e Hl Hs He];
    intros [|fuel] sl Hf; try (exfalso; lia);
    rewrite while_unfold; cbn [buffer].
  - now rewrite Hb.
  - rewrite str_in_nl_append, str_in_nl_append, str_in_nl_nl, orb_true_r.
    rewrite (line_step_blank _ _ _ Hl Hs).
    rewrite length_line_rest in Hf. rewrite IH by lia. reflexivity.
  - rewrite str_in_nl_append, str_in_nl_append, str_in_nl_nl, orb_true_r.
    rewrite (line_step_value _ _ _ _ Hl Hs Hv).
    rewrite length_line_rest in Hf. rewrite IH by lia. reflexivity.
  - rewrite str_in_nl_append, str_in_nl_append, str_in_nl_nl, orb_true_r.
    rewrite (line_step_defer _ _ _ _ Hl Hs He). reflexivity.
Qed.

(** Every buffer has a scan: the loop ends. *)
Lemma scans_total b : exists out b', scans json_loads b out b'.
Proof.
  remember (String.length b) as n eqn:Hn.
  revert b Hn. induction n as [n IH] using lt_wf_ind. intros b Hn.
  destruct (str_in nl b) eqn:Hb.
  - destruct (str_in_nl_split _ Hb) as (line & rest & -> & Hl).
    destruct (truthy (strip line)) eqn:Hs.
    + destruct (json_loads (strip line)) as [v|e] eqn:Hv.
      * destruct (IH (String.length rest)) with (b := rest)
          as (out & b' & Hsc); [rewrite Hn, length_line_rest; lia | reflexivity |].
        exists (v :: out), b'. now apply scans_line.
      * exists [], (line ++ nl ++ rest). now apply scans_defer with (e := e).
    + destruct (IH (String.length rest)) with (b := rest)
        as (out & b' & Hsc); [rewrite Hn, length_line_rest; lia | reflexivity |].
      exists out, b'. now apply scans_blank.
  - exists [], b. now apply scans_idle.
Qed.

Lemma while_lines_run sl b out b' :
  scans json_loads b out b' ->
  while_lines json_loads {| stderr_lines := sl; buffer := b |} =
  (out, {| stderr_lines := sl; buffer := b' |}, Return tt).
Proof.
  intros H. unfold while_lines, bind at 1, get_buffer. cbn [buffer].
  rewrite (scans_run _ _ _ H) by lia. reflexivity.
Qed.

(** The [while] loop returns: no exception leaves it, its bound on the
    turns included. *)
Lemma while_lines_returns l :
  exists out b',
    while_lines json_loads l =
    (out, {| stderr_lines := stderr_lines l; buffer := b' |}, Return tt).
Proof.
  destruct l as [sl b]. destruct (scans_total b) as (out & b' & H).
  exists out, b'. now apply while_lines_run.
Qed.

Lemma on_chunk_run sl b chunk out b' :
  scans json_loads (b ++ chunk) out b' ->
  on_chunk json_loads chunk {| stderr_lines := sl; buffer := b |} =
  (out, {| stderr_lines := sl; buffer := b' |}, Return tt).
Proof.
  intros H. unfold on_chunk, bind, get_buffer, set_buffer.
  cbn [buffer stderr_lines]. rewrite (while_lines_run _ _ _ _ H). reflexivity.
Qed.

Lemma reads_run b chunks out b' :
  reads json_loads b chunks out b' ->
  forall sl,
  for_each chunks (on_chunk json_loads) {| stderr_lines := sl; buffer := b |} =
  (out, {| stderr_lines := sl; buffer := b' |}, Return tt).
Proof.
  induction 1 as [b | b chunk chunks out1 b1 out2 b2 Hs _ IH]; intros sl.
  - reflexivity.
  - cbn [for_each]. unfold bind. rewrite (on_chunk_run _ _ _ _ _ Hs), IH.
    reflexivity.
Qed.

Lemma reads_total chunks : forall b, exists out b', reads json_loads b chunks out b'.
Proof.
  induction chunks as [|chunk chunks IH]; intros b.
  - exists [], b. constructor.
  - destruct (scans_total (b ++ chunk)) as (out1 & b1 & H1).
    destruct (IH b1) as (out2 & b2 & H2).
    exists (out1 ++ out2)%list, b2. now apply reads_cons with (b1 := b1).
Qed.

(** The drain task: the trimmed lines are appended in order; both ways
    the stream stops end the task without an exception. *)
Lemma read_stderr_run self sl b :
  _read_stderr self {| stderr_lines := sl; buffer := b |} =
  (@nil Message,
   {| stderr_lines := (sl ++ diagnostic_log self)%list; buffer := b |},
   @Return (@exn JSONDecodeError) unit tt).
Proof.
  unfold _read_stderr, diagnostic_log.
  destruct (_stderr_stream self) as [[xs stop]|].
  - unfold try_except, async_for. cbn [items stops].
    assert (H : forall sl,
      for_each xs (fun line : string =>
        bind get_stderr_lines (fun ys =>
          set_stderr_lines (ys ++ [strip line])%list))
        {| stderr_lines := sl; buffer := b |} =
      (@nil Message,
       {| stderr_lines := (sl ++ map strip xs)%list; buffer := b |},
       @Return (@exn JSONDecodeError) unit tt)).
    { induction xs as [|x xs IH]; intros sl'.
      - cbn. now rewrite app_nil_r.
      - cbn [for_each map]. unfold bind at 1.
        unfold bind at 1, get_stderr_lines, set_stderr_lines.
        cbn [stderr_lines buffer]. rewrite IH.
        cbn [app]. now rewrite <- app_assoc. }
    unfold bind at 1. rewrite H. destruct stop; reflexivity.
  - unfold ret. now rewrite app_nil_r.
Qed.

(** Reading stdout: both ways the stream stops end the loop without an
    exception. *)
Lemma read_stdout_run stdout out b' sl b :
  reads json_loads b (items stdout) out b' ->
  read_stdout json_loads stdout {| stderr_lines := sl; buffer := b |} =
  (out, {| stderr_lines := sl; buffer := b' |}, Return tt).
Proof.
  intros H. unfold read_stdout, try_except, async_for, bind.
  rewrite (reads_run _ _ _ _ H).
  destruct (stops stdout); cbn; rewrite ?app_nil_r; reflexivity.
Qed.

(** The order in which the drain task and the body of the task group run
    does not show: they work on different locals. *)
Lemma task_group_order self stdout l :
  task_group (_read_stderr self) (read_stdout json_loads stdout) l =
  bind (_read_stderr self) (fun _ => read_stdout json_loads stdout) l.
Proof.
  destruct l as [sl b].
  destruct (reads_total (items stdout) b) as (out & b' & H).
  unfold task_group, bind.
  rewrite (read_stdout_run _ _ _ _ _ H), !read_stderr_run,
    (read_stdout_run _ _ _ _ _ H).
  cbn. now rewrite app_nil_r.
Qed.

(** *** The flush *)

Lemma flush_empty sl b :
  truthy (strip b) = false ->
  flush json_loads {| stderr_lines := sl; buffer := b |} =
  ([], {| stderr_lines := sl; buffer := b |}, Return tt).
Proof.
  intros H. unfold flush, bind, get_buffer. cbn [buffer]. now rewrite H.
Qed.

Lemma flush_value sl b v :
  truthy (strip b) = true ->
  json_loads (strip b) = Return v ->
  flush json_loads {| stderr_lines := sl; buffer := b |} =
  ([v], {| stderr_lines := sl; buffer := b |}, Return tt).
Proof.
  intros H Hv. unfold flush, bind at 1, get_buffer. cbn [buffer]. rewrite H.
  unfold try_except, bind, loads. rewrite Hv. reflexivity.
Qed.

Lemma flush_failure sl b e :
  truthy (strip b) = true ->
  json_loads (strip b) = Raise e ->
  flush json_loads {| stderr_lines := sl; buffer := b |} =
  ([], {| stderr_lines := sl; buffer := b |},
   if startswith (lstrip b) "{" || startswith (lstrip b) "["
   then Raise (CLIJSONDecodeError b e) else Return tt).
Proof.
  intros H Hv. unfold flush, bind at 1, get_buffer. cbn [buffer]. rewrite H.
  unfold try_except, bind, loads. rewrite Hv. cbn [raise].
  destruct (startswith (lstrip b) "{" || startswith (lstrip b) "[");
    reflexivity.
Qed.

(** The flush yields at most one message, leaves the locals alone, and
    the only exception out of it is [CLIJSONDecodeError]. *)
Lemma flush_cases l :
  exists out r,
    flush json_loads l = (out, l, r) /\
    (r = Return tt \/ exists e, r = Raise (CLIJSONDecodeError (buffer l) e) /\ out = []).
Proof.
  destruct l as [sl b]. cbn [buffer].
  destruct (truthy (strip b)) eqn:H.
  - destruct (json_loads (strip b)) as [v|e] eqn:Hv.
    + rewrite (flush_value _ _ _ H Hv). eauto.
    + rewrite (flush_failure _ _ _ H Hv).
      destruct (startswith (lstrip b) "{" || startswith (lstrip b) "[").
      * do 2 eexists. split; [reflexivity|]. right. now exists e.
      * eauto.
  - rewrite (flush_empty _ _ H). eauto.
Qed.

(** *** The exit check *)

Lemma str_in_error_truthy s : str_in "error" s = true -> truthy s = true.
Proof. destruct s; [discriminate | reflexivity]. Qed.

Lemma lower_truthy s : truthy (lower s) = truthy s.
Proof. destruct s; reflexivity. Qed.

Lemma check_exit_absent p l :
  returncode p = None ->
  @check_exit Message JSONDecodeError p l = ([], l, Return tt).
Proof. intros H. unfold check_exit. now rewrite H. Qed.

Lemma check_exit_zero p l :
  returncode p = Some 0%Z ->
  @check_exit Message JSONDecodeError p l = ([], l, Return tt).
Proof. intros H. unfold check_exit. now rewrite H. Qed.

Lemma check_exit_abnormal p code l :
  returncode p = Some code -> code <> 0%Z ->
  @check_exit Message JSONDecodeError p l =
  ([], l,
   if str_in "error" (lower (join nl (stderr_lines l)))
   then Raise (ProcessError "CLI process failed" code (join nl (stderr_lines l)))
   else Return tt).
Proof.
  intros H Hc. unfold check_exit. rewrite H.
  apply Z.eqb_neq in Hc. rewrite Hc.
  unfold bind, get_stderr_lines. 
  destruct (str_in "error" (lower (join nl (stderr_lines l)))) eqn:He.
  - rewrite <- lower_truthy, (str_in_error_truthy _ He). reflexivity.
  - rewrite andb_false_r. reflexivity.
Qed.

(** *** The whole method *)

(** With a process and a stdout stream, the method reads all of stdout,
    then flushes and checks the exit with the whole diagnostic log. *)
Lemma run_connected self p stdout out b l :
  _process self = Some p ->
  _stdout_stream self = Some stdout ->
  reads json_loads "" (items stdout) out b ->
  _patched_receive_messages json_loads self l =
  let '(out', l', r) :=
    bind (flush json_loads) (fun _ => check_exit p)
      {| stderr_lines := diagnostic_log self; buffer := b |} in
  ((out ++ out')%list, l', r).
Proof.
  intros Hp Hs Hr. unfold _patched_receive_messages. rewrite Hp, Hs.
  unfold bind at 1, set_stderr_lines. unfold bind at 1, set_buffer.
  cbn [stderr_lines buffer app]. unfold bind at 1.
  unfold task_group, bind at 1.
  rewrite (read_stdout_run _ _ _ _ _ Hr), read_stderr_run. cbn [app].
  destruct (bind (flush json_loads) _ _) as [[out' l'] r].
  now rewrite app_nil_r.
Qed.


(** *** Scans compose, and depend on the text only *)

Lemma scans_deterministic b out1 b1 out2 b2 :
  scans json_loads b out1 b1 -> scans json_loads b out2 b2 ->
  out1 = out2 /\ b1 = b2.
Proof.
  intros H1 H2.
  pose proof (scans_run _ _ _ H1 (S (String.length b)) [] (Nat.lt_succ_diag_r _)) as E1.
  pose proof (scans_run _ _ _ H2 (S (String.length b)) [] (Nat.lt_succ_diag_r _)) as E2.
  rewrite E1 in E2. now injection E2.
Qed.

(** What a scan leaves is left alone by another scan. *)
Lemma scans_stable b out b' :
  scans json_loads b out b' -> scans json_loads b' [] b'.
Proof.
  induction 1 as [b Hb | | | line rest e Hl Hs He]; try assumption.
  - now apply scans_idle.
  - now apply scans_defer with (e := e).
Qed.

(** Scanning, receiving [c] and scanning again is scanning all at once. *)
Lemma scans_append b out1 b1 c out2 b2 :
  scans json_loads b out1 b1 ->
  scans json_loads (b1 ++ c) out2 b2 ->
  scans json_loads (b ++ c) (out1 ++ out2)%list b2.
Proof.
  induction 1 as [b Hb | line rest out b' Hl Hs _ IH
                 | line rest v out b' Hl Hs Hv _ IH | line rest e Hl Hs He];
    intros H2; cbn [app]; try assumption.
  - rewrite !append_assoc. apply scans_blank; auto.
  - rewrite !append_assoc. apply scans_line; auto.
Qed.

(** The fragments taken one by one give what their whole text gives. *)
Lemma reads_scans b chunks out b' :
  reads json_loads b chunks out b' ->
  scans json_loads b [] b ->
  scans json_loads (b ++ joined chunks) out b'.
Proof.
  induction 1 as [b | b chunk chunks out1 b1 out2 b2 Hs _ IH]; intros Hb.
  - cbn [joined]. now rewrite append_nil_r.
  - cbn [joined]. rewrite <- append_assoc.
    apply scans_append with (b1 := b1); [assumption|].
    apply IH. now apply scans_stable with (b := b ++ chunk) (out := out1).
Qed.

Lemma reads_deterministic b chunks out1 b1 out2 b2 :
  reads json_loads b chunks out1 b1 -> reads json_loads b chunks out2 b2 ->
  out1 = out2 /\ b1 = b2.
Proof.
  intros H1 H2.
  pose proof (reads_run _ _ _ _ H1 []) as E1.
  pose proof (reads_run _ _ _ _ H2 []) as E2.
  rewrite E1 in E2. now injection E2.
Qed.

(** What the fragments give is decided by their whole text. *)
Lemma reads_of_text chunks out b' :
  scans json_loads (joined chunks) out b' ->
  reads json_loads "" chunks out b'.
Proof.
  intros H. destruct (reads_total chunks "") as (out0 & b0 & Hr).
  assert (Hs := reads_scans _ _ _ _ Hr (scans_idle json_loads "" eq_refl)).
  cbn [append] in Hs.
  destruct (scans_deterministic _ _ _ _ _ H Hs) as [-> ->]. exact Hr.
Qed.
End GeneratorFacts.

(* ------------------------------------------------------------------ *)
(** * Facts about trimming and case *)

Lemma lstrip_head (s : string) :
  lstrip s = "" \/ exists c t, lstrip s = String c t /\ isspace c = false.
Proof.
  induction s as [|c s IH]; [now left|].
  cbn [lstrip]. destruct (isspace c) eqn:Hc; [exact IH|].
  right. now exists c, s.
Qed.

Lemma rstrip_cons (c : ascii) (s : string) :
  isspace c = false -> rstrip (String c s) = String c (rstrip s).
Proof. intros H. cbn [rstrip]. rewrite H. now destruct (rstrip s). Qed.

(** A text that is not blank starts, once trimmed on the left or on both
    sides, with the same character, which is not white space. *)
Lemma strip_head (s : string) :
  truthy (strip s) = true ->
  exists c t t', lstrip s = String c t /\ strip s = String c t' /\
                 isspace c = false.
Proof.
  unfold strip. intros H.
  destruct (lstrip_head s) as [E | (c & t & E & Hc)].
  - rewrite E in H. discriminate.
  - exists c, t, (rstrip t). rewrite E. now rewrite rstrip_cons.
Qed.






(** The letters of "error", lowered, against the letters up to case. *)
Lemma lower_is_e (c : ascii) : Ascii.eqb (lower_char c) "e" = same_letter c "e".
Proof. destruct c as [[] [] [] [] [] [] [] []]; reflexivity. Qed.

Lemma lower_is_r (c : ascii) : Ascii.eqb (lower_char c) "r" = same_letter c "r".
Proof. destruct c as [[] [] [] [] [] [] [] []]; reflexivity. Qed.

Lemma lower_is_o (c : ascii) : Ascii.eqb (lower_char c) "o" = same_letter c "o".
Proof. destruct c as [[] [] [] [] [] [] [] []]; reflexivity. Qed.

Lemma startswith_lower_error (s : string) :
  startswith (lower s) "error" = starts_ci s "error".
Proof.
  destruct s as [|c1 [|c2 [|c3 [|c4 [|c5 s]]]]];
    cbn [lower startswith starts_ci];
    rewrite ?lower_is_e, ?lower_is_r, ?lower_is_o; reflexivity.
Qed.

(** [ "error" in s.lower() ] is an occurrence of "error" up to case. *)
Lemma str_in_lower_error (s : string) :
  str_in "error" (lower s) = occurs_ci "error" s.
Proof.
  induction s as [|c s IH].
  - reflexivity.
  - change (lower (String c s)) with (String (lower_char c) (lower s)).
    change (str_in "error" (String (lower_char c) (lower s)))
      with (startswith (lower (String c s)) "error" || str_in "error" (lower s)).
    rewrite startswith_lower_error, IH. reflexivity.
Qed.

(* ------------------------------------------------------------------ *)
(** * The properties of the decoder *)

Section Properties.

Context {Message JSONDecodeError : Type}.
Variable json_loads : string -> outcome JSONDecodeError Message.

(** [json.dumps], for the properties that speak of serialized values. *)
Variable json_dumps : Message -> string.

Lemma check_exit_shape (p : Process) (l : locals) :
  exists r, @check_exit Message JSONDecodeError p l = ([], l, r).
Proof.
  destruct (returncode p) as [code|] eqn:Hp.
  - destruct (Z.eq_dec code 0) as [->|Hc].
    + rewrite (check_exit_zero _ _ Hp). eauto.
    + rewrite (check_exit_abnormal _ _ _ Hp Hc). eauto.
  - rewrite (check_exit_absent _ _ Hp). eauto.
Qed.

(** The exit check raises nothing but [ProcessError]. *)
Lemma check_exit_raises p l out l' e :
  @check_exit Message JSONDecodeError p l = (out, l', Raise e) ->
  exists code text, e = ProcessError "CLI process failed" code text.
Proof.
  destruct (returncode p) as [code|] eqn:Hc.
  - destruct (Z.eq_dec code 0) as [->|Hn].
    + rewrite (check_exit_zero _ _ Hc). discriminate.
    + rewrite (check_exit_abnormal _ _ _ Hc Hn).
      destruct (str_in _ _); [|discriminate].
      intros H. injection H as _ _ <-. eauto.
  - rewrite (check_exit_absent _ _ Hc). discriminate.
Qed.

(** The method with a process and a stdout stream: the messages of the
    fragments, then those of the flush; the exception of the flush, or
    else that of the exit check. *)
Lemma run_shape self p stdout out b l :
  _process self = Some p ->
  _stdout_stream self = Some stdout ->
  reads json_loads "" (items stdout) out b ->
  let final := {| stderr_lines := diagnostic_log self; buffer := b |} in
  _patched_receive_messages json_loads self l =
  ((out ++ fst (fst (flush json_loads final)))%list, final,
   match snd (flush json_loads final) with
   | Return _ => snd (@check_exit Message JSONDecodeError p final)
   | Raise e => Raise e
   end).
Proof.
  intros Hp Hs Hr final. rewrite (run_connected _ _ _ _ _ _ _ Hp Hs Hr).
  fold final. unfold bind.
  destruct (flush_cases json_loads final) as (fo & fr & -> & Hfr).
  cbn [fst snd].
  destruct Hfr as [-> | (e & -> & ->)]; [|reflexivity].
  destruct (check_exit_shape p final) as (r & ->). cbn [snd].
  now rewrite app_nil_r.
Qed.

(** One serialized value and its line feed scan to the value. *)
Lemma scans_one_line s v :
  serializes json_loads s v -> scans json_loads (s ++ nl) [v] "".
Proof.
  intros (Hl & Hs & Hv). rewrite <- (append_nil_r (s ++ nl)), append_assoc.
  apply scans_line; auto. now apply scans_idle.
Qed.

(** ** Round trip through two fragments *)

(** However the line of a serialized value is cut into fragments, the
    decoder yields the value and nothing else, and the flush finds the
    buffer empty. *)
Lemma round_trip_fragments self p stdout s v :
  serializes json_loads s v ->
  joined (items stdout) = s ++ nl ->
  _process self = Some p ->
  _stdout_stream self = Some stdout ->
  emitted json_loads self = [v] /\
  forall line e, terminal json_loads self <> Some (CLIJSONDecodeError line e).
Proof.
  intros Hv Htext Hp Hs.
  assert (Hr : reads json_loads "" (items stdout) [v] "").
  { apply reads_of_text. rewrite Htext. now apply scans_one_line. }
  unfold emitted, terminal.
  rewrite (run_shape _ _ _ _ _ _ Hp Hs Hr).
  rewrite (flush_empty json_loads _ "" eq_refl). cbn [fst snd].
  split; [reflexivity|].
  intros line e H.
  destruct (check_exit p _) as [[o l'] [u|x]] eqn:Hx; cbn [snd] in H;
    [discriminate|].
  apply check_exit_raises in Hx as (code & text & ->). discriminate.
Qed.


(** ** Complete lines and a trailing prefix in one fragment *)

Lemma scans_lines vs tail :
  Forall (valid json_loads json_dumps) vs ->
  str_in nl tail = false ->
  scans json_loads (unlines (map json_dumps vs) ++ tail) vs tail.
Proof.
  intros Hvs Ht. induction Hvs as [|v vs (Hl & Hs & Hv) _ IH]; cbn [map unlines].
  - now apply scans_idle.
  - rewrite !append_assoc. now apply scans_line.
Qed.

(** Fragments without a line feed, on a buffer without one, are kept. *)
Lemma reads_withheld cs : forall b,
  str_in nl b = false ->
  str_in nl (joined cs) = false ->
  reads json_loads b cs [] (b ++ joined cs).
Proof.
  induction cs as [|c cs IH]; intros b Hb Hcs; cbn [joined] in *.
  - rewrite append_nil_r. constructor.
  - rewrite str_in_nl_append in Hcs. apply orb_false_elim in Hcs as [Hc Hcs].
    rewrite <- append_assoc.
    assert (Hbc : str_in nl (b ++ c) = false)
      by now rewrite str_in_nl_append, Hb, Hc.
    apply (reads_cons json_loads b c cs [] (b ++ c) []).
    + now apply scans_idle.
    + now apply IH.
Qed.

Lemma valid_prefix_unterminated w p q :
  valid json_loads json_dumps w -> json_dumps w = p ++ q -> str_in nl p = false.
Proof.
  intros (Hl & _) E. rewrite E, str_in_nl_append in Hl.
  now apply orb_false_elim in Hl as [Hp _].
Qed.

(** C2.  One fragment made of the lines of [K] valid values, each with
    its line feed, and then of nothing or of a prefix [p] of the
    serialization of a further value: while it is processed the decoder
    yields exactly the [K] values in the order of their lines and keeps
    [p] in the buffer; [p] stays there, and nothing is yielded, through
    any later fragments without a line feed; the fragment that completes
    the line yields the further value. *)
Theorem complete_lines_then_prefix (vs : list Message) (p : string)
    (sl : list string) :
  Forall (valid json_loads json_dumps) vs ->
  (p = "" \/
   exists w q, valid json_loads json_dumps w /\ json_dumps w = p ++ q) ->
  on_chunk json_loads (unlines (map json_dumps vs) ++ p)
    {| stderr_lines := sl; buffer := "" |} =
  (vs, {| stderr_lines := sl; buffer := p |}, Return tt) /\
  (forall cs, str_in nl (joined cs) = false ->
     for_each cs (on_chunk json_loads) {| stderr_lines := sl; buffer := p |} =
     ([], {| stderr_lines := sl; buffer := p ++ joined cs |}, Return tt)) /\
  (forall w q, valid json_loads json_dumps w -> json_dumps w = p ++ q ->
     on_chunk json_loads (q ++ nl) {| stderr_lines := sl; buffer := p |} =
     ([w], {| stderr_lines := sl; buffer := "" |}, Return tt)).
Proof.
  intros Hvs Hp.
  assert (Hnl : str_in nl p = false).
  { destruct Hp as [-> | (w & q & Hw & E)]; [reflexivity|].
    now apply valid_prefix_unterminated with (w := w) (q := q). }
  repeat split.
  - apply on_chunk_run. cbn [append]. now apply scans_lines.
  - intros cs Hcs. apply reads_run. now apply reads_withheld.
  - intros w q Hw E. apply on_chunk_run.
    rewrite <- append_assoc, <- E. now apply scans_one_line.
Qed.

(** ** The buffer invariant *)

Lemma scans_consumed t out b :
  scans json_loads t out b ->
  exists lines, consumed json_loads lines out /\ t = unlines lines ++ b.
Proof.
  induction 1 as [b Hb | line rest out b' Hl Hs _ (lines & Hc & ->)
                 | line rest v out b' Hl Hs Hv _ (lines & Hc & ->)
                 | line rest e Hl Hs He].
  - exists []. split; [constructor | reflexivity].
  - exists (line :: lines). split; [now constructor|].
    cbn [unlines]. now rewrite !append_assoc.
  - exists (line :: lines). split; [now constructor|].
    cbn [unlines]. now rewrite !append_assoc.
  - exists []. split; [constructor | reflexivity].
Qed.

(** C6.  At every suspension point, that is after any number [n] of the
    fragments have been processed, the text of the fragments received is
    the text of the lines consumed (each blank or decoded to one of the
    messages yielded, each with its line feed) followed by the buffer:
    the buffer is the tail not consumed, and processing fragments neither
    drops nor repeats text. *)
Theorem buffer_is_unconsumed_tail (chunks : list string) (n : nat)
    (sl : list string) :
  exists out b lines,
    for_each (firstn n chunks) (on_chunk json_loads)
      {| stderr_lines := sl; buffer := "" |} =
    (out, {| stderr_lines := sl; buffer := b |}, Return tt) /\
    consumed json_loads lines out /\
    joined (firstn n chunks) = unlines lines ++ b.
Proof.
  destruct (reads_total json_loads (firstn n chunks) "") as (out & b & Hr).
  assert (Hs := reads_scans _ _ _ _ _ Hr (scans_idle json_loads "" eq_refl)).
  cbn [append] in Hs.
  destruct (scans_consumed _ _ _ Hs) as (lines & Hc & E).
  exists out, b, lines. split; [|now split].
  now apply reads_run.
Qed.

(** ** The flush at the end of the stream *)


(** ** The exit code against the diagnostics *)

(** C4.  When the stream has closed and the flush has raised nothing, the
    method ends with [ProcessError] exactly when the exit code is there
    and not zero and "error" occurs up to case in the diagnostic lines
    joined by line feeds; the error carries the exit code and that text.
    In every other case the sequence ends without an exception. *)
Theorem process_failure_iff self p stdout :
  _process self = Some p ->
  _stdout_stream self = Some stdout ->
  (forall line e, terminal json_loads self <> Some (CLIJSONDecodeError line e)) ->
  let text := join nl (diagnostic_log self) in
  terminal json_loads self =
  match returncode p with
  | Some code =>
      if negb (code =? 0)%Z && occurs_ci "error" text
      then Some (ProcessError "CLI process failed" code text)
      else None
  | None => None
  end.
Proof.
  intros Hp Hs Hflush text.
  destruct (reads_total json_loads (items stdout) "") as (out & b & Hr).
  unfold terminal in *. rewrite (run_shape _ _ _ _ _ _ Hp Hs Hr) in *.
  cbn [snd] in *.
  destruct (flush_cases json_loads
    {| stderr_lines := diagnostic_log self; buffer := b |})
    as (fo & fr & E & [-> | (e & -> & _)]); rewrite E in *; cbn [snd] in *.
  - destruct (returncode p) as [code|] eqn:Hc.
    + destruct (Z.eq_dec code 0) as [->|Hn].
      * now rewrite (check_exit_zero _ _ Hc).
      * rewrite (check_exit_abnormal _ _ _ Hc Hn). cbn [snd stderr_lines].
        apply Z.eqb_neq in Hn. rewrite Hn. cbn [negb andb].
        fold text. rewrite str_in_lower_error.
        now destruct (occurs_ci "error" text).
    + now rewrite (check_exit_absent _ _ Hc).
  - exfalso. now apply (Hflush b e).
Qed.

(** ** Failures in the middle of the stream *)



(** ** The connection check *)


(** ** A line that never decodes *)


Lemma consumed_then_scans lines out :
  consumed json_loads lines out ->
  forall t o b, scans json_loads t o b ->
  scans json_loads (unlines lines ++ t) (out ++ o)%list b.
Proof.
  induction 1 as [| line lines out Hl Hs _ IH | line lines v out Hl Hs Hv _ IH];
    intros t o b Ht; cbn [unlines app append].
  - exact Ht.
  - rewrite !append_assoc. apply scans_blank; auto.
  - rewrite !append_assoc. apply scans_line; auto.
Qed.



(** ** Diagnostics do not reach the messages *)

Lemma flush_ignores_stderr_lines sl1 sl2 b :
  fst (fst (flush json_loads {| stderr_lines := sl1; buffer := b |})) =
  fst (fst (flush json_loads {| stderr_lines := sl2; buffer := b |})) /\
  snd (flush json_loads {| stderr_lines := sl1; buffer := b |}) =
  snd (flush json_loads {| stderr_lines := sl2; buffer := b |}).
Proof.
  destruct (truthy (strip b)) eqn:Hb.
  - destruct (json_loads (strip b)) as [v|e] eqn:Hv.
    + now rewrite !(flush_value _ _ _ _ Hb Hv).
    + now rewrite !(flush_failure _ _ _ _ Hb Hv).
  - now rewrite !(flush_empty _ _ _ Hb).
Qed.

(** C10.  Two runs on the same fragments, whatever their diagnostic
    streams and exit codes, yield the same messages in the same order;
    they end alike but for a [ProcessError], which is all the diagnostics
    and the exit code decide. *)
Theorem diagnostics_do_not_interfere self1 self2 p1 p2 s1 s2 :
  _process self1 = Some p1 -> _process self2 = Some p2 ->
  _stdout_stream self1 = Some s1 -> _stdout_stream self2 = Some s2 ->
  items s1 = items s2 ->
  emitted json_loads self1 = emitted json_loads self2 /\
  without_process_error (terminal json_loads self1) =
  without_process_error (terminal json_loads self2).
Proof.
  intros Hp1 Hp2 Hs1 Hs2 Hi.
  destruct (reads_total json_loads (items s1) "") as (out & b & Hr1).
  assert (Hr2 := Hr1). rewrite Hi in Hr2.
  unfold emitted, terminal.
  rewrite (run_shape _ _ _ _ _ _ Hp1 Hs1 Hr1),
    (run_shape _ _ _ _ _ _ Hp2 Hs2 Hr2). cbn [fst snd].
  destruct (flush_ignores_stderr_lines
    (diagnostic_log self1) (diagnostic_log self2) b) as [-> ->].
  split; [reflexivity|].
  destruct (snd (flush json_loads _)) as [u|e]; [|reflexivity].
  destruct (check_exit p1 _) as [[o1 l1] [u1|x1]] eqn:H1;
    destruct (check_exit p2 _) as [[o2 l2] [u2|x2]] eqn:H2; cbn [snd];
    try (apply check_exit_raises in H1 as (c1 & t1 & ->));
    try (apply check_exit_raises in H2 as (c2 & t2 & ->));
    reflexivity.
Qed.

End Properties.

(* ------------------------------------------------------------------ *)
(** * Facts about the JSON reader and writer *)

Module JsonFacts.
Import Json.

(** ** Numbers *)

Lemma digit_char_spec (k : N) :
  (k < 10)%N ->
  is_digit (digit_char k) = true /\ (code (digit_char k) - 48)%N = k /\
  ((code (digit_char k) =? 48)%N = (k =? 0)%N).
Proof.
  intros H.
  assert (E : (k = 0 \/ k = 1 \/ k = 2 \/ k = 3 \/ k = 4 \/ k = 5 \/ k = 6 \/
               k = 7 \/ k = 8 \/ k = 9)%N) by lia.
  repeat (destruct E as [-> | E]; [repeat split; reflexivity|]).
  subst k. repeat split; reflexivity.
Qed.

Lemma pow2_step (f : nat) (n : N) :
  (n < 2 ^ N.of_nat (S f))%N -> (n / 10 < 2 ^ N.of_nat f)%N.
Proof.
  rewrite Nat2N.inj_succ, N.pow_succ_r'. intros H.
  apply N.Div0.div_lt_upper_bound. lia.
Qed.

Lemma pow2_pos (f : nat) (n : N) :
  (0 < n)%N -> (n < 2 ^ N.of_nat f)%N -> exists f', f = S f'.
Proof.
  destruct f as [|f']; [|now exists f']. cbn. lia.
Qed.

Lemma write_digits_append (f : nat) : forall n acc,
  write_digits f n acc = write_digits f n "" ++ acc.
Proof.
  induction f as [|f IH]; intros n acc; cbn [write_digits].
  - reflexivity.
  - destruct (n / 10 =? 0)%N; [reflexivity|].
    rewrite IH, (IH _ (String _ "")), append_assoc. reflexivity.
Qed.

(** The digits written read back as the number. *)
Lemma read_write_digits (f : nat) : forall n acc,
  (0 < n)%N -> (n < 2 ^ N.of_nat f)%N ->
  read_digits 0 (write_digits f n acc) = read_digits n acc.
Proof.
  induction f as [|f IH]; intros n acc Hpos Hlt.
  - cbn in Hlt. lia.
  - cbn [write_digits].
    assert (Hm : (n mod 10 < 10)%N) by (apply N.mod_lt; lia).
    destruct (digit_char_spec _ Hm) as (Hd & Hc & _).
    assert (Hstep : forall a, read_digits a (String (digit_char (n mod 10)) acc) =
                              read_digits (a * 10 + n mod 10) acc).
    { intros a. cbn [read_digits]. now rewrite Hd, Hc. }
    destruct (n / 10 =? 0)%N eqn:Hq.
    + apply N.eqb_eq in Hq. rewrite Hstep.
      f_equal. pose proof (N.Div0.div_mod n 10) as H. rewrite Hq in H.
      rewrite H at 2. now rewrite N.mul_0_r.
    + apply N.eqb_neq in Hq.
      rewrite IH; [|now apply N.neq_0_lt_0|now apply pow2_step].
      rewrite Hstep. f_equal. rewrite (N.Div0.div_mod n 10) at 3.
      now rewrite N.mul_comm.
Qed.

(** The first digit written for a positive number is not a zero. *)
Lemma write_digits_head (f : nat) : forall n acc,
  (0 < n)%N -> (n < 2 ^ N.of_nat f)%N ->
  exists d s, write_digits f n acc = String d s /\
              is_digit d = true /\ (code d =? 48)%N = false.
Proof.
  induction f as [|f IH]; intros n acc Hpos Hlt.
  - cbn in Hlt. lia.
  - cbn [write_digits].
    assert (Hm : (n mod 10 < 10)%N) by (apply N.mod_lt; lia).
    destruct (digit_char_spec _ Hm) as (Hd & _ & Hz).
    destruct (n / 10 =? 0)%N eqn:Hq.
    + apply N.eqb_eq in Hq. do 2 eexists. split; [reflexivity|].
      split; [exact Hd|]. rewrite Hz. apply N.eqb_neq.
      pose proof (N.Div0.div_mod n 10). lia.
    + apply N.eqb_neq in Hq.
      apply IH; [now apply N.neq_0_lt_0 | now apply pow2_step].
Qed.

Lemma log2_bound (n : N) :
  (0 < n)%N -> (n < 2 ^ N.of_nat (S (N.to_nat (N.log2 n))))%N.
Proof.
  intros H. rewrite Nat2N.inj_succ, N2Nat.id.
  now apply N.log2_spec.
Qed.

Lemma closes_not_digit (rest : string) (n : N) :
  closes rest = true -> read_digits n rest = (n, rest).
Proof.
  destruct rest as [|c rest]; [reflexivity|]. cbn [closes read_digits].
  unfold is_digit. intros H.
  destruct (code c =? 44)%N eqn:E1; [apply N.eqb_eq in E1; rewrite E1; reflexivity|].
  destruct (code c =? 93)%N eqn:E2; [apply N.eqb_eq in E2; rewrite E2; reflexivity|].
  destruct (code c =? 125)%N eqn:E3; [apply N.eqb_eq in E3; rewrite E3; reflexivity|].
  discriminate.
Qed.

Lemma closes_not_float (rest : string) :
  closes rest = true -> float_follows rest = false.
Proof.
  destruct rest as [|c [|d rest]]; try reflexivity. cbn [closes float_follows].
  destruct c as [[] [] [] [] [] [] [] []]; try discriminate; reflexivity.
Qed.

Lemma read_write_nat (n : N) (rest : string) :
  closes rest = true ->
  read_nat (write_nat n ++ rest) = Return (n, rest).
Proof.
  intros Hr. unfold write_nat. rewrite <- write_digits_append.
  destruct (N.eq_dec n 0) as [->|Hn].
  - reflexivity.
  - assert (Hpos : (0 < n)%N) by lia.
    destruct (write_digits_head _ n rest Hpos (log2_bound n Hpos))
      as (d & s & E & Hd & Hz).
    unfold read_nat. rewrite E, Hz, Hd, <- E.
    rewrite (read_write_digits _ n rest Hpos (log2_bound n Hpos)).
    now rewrite closes_not_digit.
Qed.

Lemma write_nat_head (n : N) :
  exists d s, write_nat n = String d s /\ is_digit d = true.
Proof.
  destruct (N.eq_dec n 0) as [->|Hn].
  - now exists "0"%char, "".
  - assert (Hpos : (0 < n)%N) by now apply N.neq_0_lt_0.
    destruct (write_digits_head _ n "" Hpos (log2_bound n Hpos))
      as (d & s & E & Hd & _).
    now exists d, s.
Qed.

Lemma digit_not_minus (d : ascii) : is_digit d = true -> (code d =? 45)%N = false.
Proof.
  unfold is_digit. intros H. apply andb_prop in H as [H1 _].
  apply N.leb_le in H1. apply N.eqb_neq. lia.
Qed.

Lemma read_int_nat (n : N) (rest : string) :
  closes rest = true ->
  read_int (write_nat n ++ rest) = Return (Z.of_N n, rest).
Proof.
  intros Hr. destruct (write_nat_head n) as (d & s & E & Hd).
  unfold read_int. rewrite E. cbn [append]. rewrite (digit_not_minus d Hd).
  change (String d (s ++ rest)) with (String d s ++ rest). rewrite <- E.
  now rewrite (read_write_nat n rest Hr), (closes_not_float rest Hr).
Qed.

(** An integer written reads back, in front of what may follow a value. *)
Lemma read_write_int (z : Z) (rest : string) :
  closes rest = true ->
  read_int (write_int z ++ rest) = Return (z, rest).
Proof.
  intros Hr. destruct z as [|p|p]; unfold write_int.
  - now rewrite read_int_nat.
  - now rewrite read_int_nat.
  - unfold read_int. cbn [append].
    change (code "-" =? 45)%N with true. cbn iota.
    now rewrite (read_write_nat _ rest Hr), (closes_not_float rest Hr).
Qed.

(** ** Strings *)

(** The escape of a character reads back as the character. *)
Lemma read_write_char (c : ascii) (t : string) :
  read_chars (write_char c ++ t) = cons_char c (read_chars t).
Proof. destruct c as [[] [] [] [] [] [] [] []]; reflexivity. Qed.

Lemma read_write_chars (s rest : string) :
  read_chars (write_chars s ++ String quote rest) = Return (s, rest).
Proof.
  induction s as [|c s IH].
  - reflexivity.
  - cbn [write_chars]. rewrite append_assoc, read_write_char, IH. reflexivity.
Qed.

Lemma write_string_append (s rest : string) :
  write_string s ++ rest = String quote (write_chars s ++ String quote rest).
Proof. unfold write_string. cbn [append]. now rewrite append_assoc. Qed.

(** ** Documents *)

(** Induction on a value, with the hypothesis for the values inside. *)
Lemma value_induction (P : value -> Prop) :
  P Null -> (forall b, P (Bool b)) -> (forall z, P (Int z)) ->
  (forall s, P (Str s)) ->
  (forall xs, Forall P xs -> P (Arr xs)) ->
  (forall kvs, Forall (fun kv => P (snd kv)) kvs -> P (Obj kvs)) ->
  forall v, P v.
Proof.
  intros Hn Hb Hi Hs Ha Ho.
  fix IH 1. intros [| b | z | s | xs | kvs].
  - exact Hn.
  - apply Hb.
  - apply Hi.
  - apply Hs.
  - apply Ha. induction xs as [|x xs IHxs].
    + constructor.
    + constructor; [apply IH | exact IHxs].
  - apply Ho. induction kvs as [|[k x] kvs IHkvs].
    + constructor.
    + constructor; [apply IH | exact IHkvs].
Qed.

Lemma size_arr (xs : list value) : size (Arr xs) = S (sizes xs).
Proof.
  reflexivity.
Qed.

Lemma size_obj (kvs : list (string * value)) :
  size (Obj kvs) = S (member_sizes kvs).
Proof.
  cbn [size]. f_equal. induction kvs as [|[k x] kvs IH]; [reflexivity|].
  cbn [member_sizes fold_right snd]. now rewrite IH.
Qed.

Lemma size_pos (v : value) : 1 <= size v.
Proof. destruct v; cbn [size]; lia. Qed.

(** What the first character of a value is not. *)
Lemma opens_value_facts (c : ascii) :
  opens_value c = true ->
  is_ws c = false /\ isspace c = false /\
  (code c =? 93)%N = false /\ (code c =? 125)%N = false.
Proof.
  destruct c as [[] [] [] [] [] [] [] []]; try discriminate;
    repeat split; reflexivity.
Qed.

Lemma is_digit_opens (d : ascii) : is_digit d = true -> opens_value d = true.
Proof. unfold opens_value. intros ->. now rewrite !orb_true_r. Qed.

Lemma dumps_head (v : value) :
  exists c s, dumps v = String c s /\ opens_value c = true.
Proof.
  destruct v as [| [|] | [|p|p] | s | xs | kvs]; cbn [dumps];
    try (do 2 eexists; split; [reflexivity | reflexivity]).
  - destruct (write_nat_head (Z.to_N (Z.pos p))) as (d & s & E & Hd).
    exists d, s. split; [exact E | now apply is_digit_opens].
Qed.

Lemma skip_ws_dumps (v : value) (rest : string) :
  skip_ws (dumps v ++ rest) = dumps v ++ rest.
Proof.
  destruct (dumps_head v) as (c & s & -> & Hc).
  apply opens_value_facts in Hc as (Hw & _). cbn [append skip_ws].
  now rewrite Hw.
Qed.

(** A text that starts with a digit is read as an integer. *)
Lemma read_value_digit (fuel : nat) (d : ascii) (t : string) :
  is_digit d = true ->
  read_value (S fuel) (String d t) =
  match read_int (String d t) with
  | Return (z, rest) => Return (Int z, rest)
  | Raise x => Raise x
  end.
Proof.
  destruct d as [[] [] [] [] [] [] [] []]; try discriminate; reflexivity.
Qed.

(** A text that starts with a minus sign and a digit is read as an
    integer. *)
Lemma read_value_minus (fuel : nat) (d : ascii) (t : string) :
  is_digit d = true ->
  read_value (S fuel) (String "-" (String d t)) =
  match read_int (String "-" (String d t)) with
  | Return (z, rest) => Return (Int z, rest)
  | Raise x => Raise x
  end.
Proof.
  destruct d as [[] [] [] [] [] [] [] []]; try discriminate; reflexivity.
Qed.

Lemma read_value_int (fuel : nat) (z : Z) (rest : string) :
  closes rest = true ->
  read_value (S fuel) (write_int z ++ rest) = Return (Int z, rest).
Proof.
  intros Hr. pose proof (read_write_int z rest Hr) as E.
  destruct z as [|p|p]; unfold write_int in *.
  - destruct (write_nat_head (Z.to_N 0)) as (d & s & Ed & Hd).
    rewrite Ed in *. cbn [append] in *.
    now rewrite (read_value_digit _ _ _ Hd), E.
  - destruct (write_nat_head (Z.to_N (Z.pos p))) as (d & s & Ed & Hd).
    rewrite Ed in *. cbn [append] in *.
    now rewrite (read_value_digit _ _ _ Hd), E.
  - destruct (write_nat_head (N.pos p)) as (d & s & Ed & Hd).
    rewrite Ed in *. cbn [append] in *.
    now rewrite (read_value_minus _ _ _ Hd), E.
Qed.

Lemma write_items_cons (x : value) (xs : list value) (rest : string) :
  write_items dumps (x :: xs) ++ String "]" rest =
  dumps x ++ match xs with
             | [] => String "]" rest
             | _ :: _ => String "," (String " "
                           (write_items dumps xs ++ String "]" rest))
             end.
Proof.
  cbn [write_items]. destruct xs; rewrite !append_assoc; reflexivity.
Qed.

(** The items of an array read back onto the items read before. *)
Lemma read_items (xs : list value) :
  xs <> [] -> Forall reads_back xs ->
  forall fuel acc rest, sizes xs <= fuel ->
  read_elements fuel acc (write_items dumps xs ++ String "]" rest) =
  Return (Arr (rev acc ++ xs), rest).
Proof.
  induction xs as [|x xs IH]; [congruence|]. intros _ HF fuel acc rest Hf.
  inversion HF as [|? ? Hx Hxs]; subst.
  cbn [sizes fold_right] in Hf. fold (sizes xs) in Hf.
  destruct fuel as [|fuel]; [lia|].
  rewrite write_items_cons. cbn [read_elements].
  destruct xs as [|y ys].
  - rewrite (Hx fuel (String "]" rest)) by (lia || reflexivity).
    cbn. rewrite <- ?app_assoc. reflexivity.
  - rewrite (Hx fuel) by (lia || reflexivity).
    change (skip_ws (String "," ?t)) with (String "," t).
    cbn [skip_ws is_ws code]. cbn -[write_items read_elements skip_ws append].
    rewrite write_items_cons, skip_ws_dumps, <- write_items_cons.
    rewrite IH; [| congruence | assumption | lia].
    cbn [rev]. rewrite <- ?app_assoc. reflexivity.
Qed.

Lemma dict_set_fresh (acc : list (string * value)) (k : string) (v : value) :
  ~ In k (map fst acc) -> dict_set acc k v = (acc ++ [(k, v)])%list.
Proof.
  induction acc as [|[k' v'] acc IH]; cbn [dict_set map fst In app]; intros H.
  - reflexivity.
  - destruct (String.eqb_spec k' k) as [->|_]; [tauto|].
    rewrite IH by tauto. reflexivity.
Qed.

(** Members with different keys are kept as they come. *)
Lemma dict_of_nodup (kvs : list (string * value)) : forall acc,
  NoDup (map fst (acc ++ kvs)) -> dict_of acc kvs = (acc ++ kvs)%list.
Proof.
  induction kvs as [|[k v] kvs IH]; intros acc H; cbn [dict_of fold_left fst snd].
  - now rewrite app_nil_r.
  - rewrite dict_set_fresh.
    + fold (dict_of (acc ++ [(k, v)]) kvs). rewrite IH; rewrite <- app_assoc; easy.
    + rewrite map_app in H. cbn [map fst] in H.
      apply NoDup_remove_2 in H. intros Hin. apply H, in_or_app. now left.
Qed.

Lemma write_members_cons (k : string) (x : value)
    (kvs : list (string * value)) (rest : string) :
  write_members dumps ((k, x) :: kvs) ++ String "}" rest =
  String quote (write_chars k ++ String quote (String ":" (String " "
    (dumps x ++ match kvs with
                | [] => String "}" rest
                | _ :: _ => String "," (String " "
                              (write_members dumps kvs ++ String "}" rest))
                end)))).
Proof.
  cbn [write_members]. rewrite !append_assoc, write_string_append.
  destruct kvs; reflexivity.
Qed.

(** The members of an object read back into the dictionary. *)
Lemma read_kvs (kvs : list (string * value)) :
  kvs <> [] -> Forall (fun kv => reads_back (snd kv)) kvs ->
  forall fuel acc rest t, member_sizes kvs <= fuel ->
  write_members dumps kvs ++ String "}" rest = String quote t ->
  read_members fuel acc t = Return (Obj (dict_of acc kvs), rest).
Proof.
  induction kvs as [|[k x] kvs IH]; [congruence|].
  intros _ HF fuel acc rest t Hf Et.
  inversion HF as [|? ? Hx Hxs]; subst. cbn [snd] in Hx.
  cbn [member_sizes fold_right snd] in Hf. fold (member_sizes kvs) in Hf.
  destruct fuel as [|fuel]; [lia|].
  rewrite write_members_cons in Et. injection Et as <-.
  cbn [read_members]. rewrite read_write_chars.
  change (skip_ws (String ":" ?u)) with (String ":" u).
  cbn -[read_value read_members skip_ws append write_members dict_set].
  change (skip_ws (String " " ?u)) with (skip_ws u).
  rewrite skip_ws_dumps.
  destruct kvs as [|[k' x'] kvs].
  - rewrite (Hx fuel (String "}" rest)) by (lia || reflexivity).
    reflexivity.
  - rewrite (Hx fuel) by (lia || reflexivity).
    change (skip_ws (String "," ?u)) with (String "," u).
    cbn -[read_value read_members skip_ws append write_members dict_set].
    change (skip_ws (String " " ?u)) with (skip_ws u).
    rewrite write_members_cons.
    change (skip_ws (String quote ?u)) with (String quote u).
    cbn -[read_value read_members skip_ws append write_members dict_set].
    exact (IH ltac:(congruence) Hxs fuel (dict_set acc k x) rest _ ltac:(lia)
             (write_members_cons _ _ _ _)).
Qed.

(** The serialization of a well-formed value, in front of what may follow
    a value, reads back as the value and leaves what follows. *)
Lemma read_dumps (v : value) : wf v -> reads_back v.
Proof.
  induction v as [| b | z | s | xs IH | kvs IH] using value_induction;
    intros Hwf fuel rest Hf Hr;
    (destruct fuel as [|fuel]; [pose proof (size_pos Null); cbn in *; lia|]).
  - reflexivity.
  - destruct b; reflexivity.
  - now apply read_value_int.
  - cbn [dumps]. rewrite write_string_append. cbn [read_value].
    change (code quote =? 34)%N with true. cbn iota.
    now rewrite read_write_chars.
  - inversion Hwf as [| | | | ? Hxs |]; subst.
    assert (HF : Forall reads_back xs).
    { clear - IH Hxs. induction IH; inversion Hxs; subst; constructor; auto. }
    rewrite size_arr in Hf.
    change (dumps (Arr xs) ++ rest)
      with (String "[" ((write_items dumps xs ++ "]") ++ rest)).
    rewrite append_assoc. cbn [append].
    destruct xs as [|x xs]; [reflexivity|].
    cbn [read_value]. change (code "[" =? 34)%N with false.
    change (code "[" =? 123)%N with false. change (code "[" =? 91)%N with true.
    cbn iota. rewrite write_items_cons, skip_ws_dumps.
    destruct (dumps_head x) as (c & s & E & Hc).
    apply opens_value_facts in Hc as (_ & _ & Hc & _).
    rewrite E at 1. cbn [append]. rewrite Hc.
    rewrite <- write_items_cons.
    rewrite read_items; [reflexivity | congruence | assumption | lia].
  - inversion Hwf as [| | | | | ? Hnd Hxs]; subst.
    assert (HF : Forall (fun kv => reads_back (snd kv)) kvs).
    { clear - IH Hxs. induction IH; inversion Hxs; subst; constructor; auto. }
    rewrite size_obj in Hf.
    change (dumps (Obj kvs) ++ rest)
      with (String "{" ((write_members dumps kvs ++ "}") ++ rest)).
    rewrite append_assoc. cbn [append].
    destruct kvs as [|[k x] kvs]; [reflexivity|].
    cbn [read_value]. change (code "{" =? 34)%N with false.
    change (code "{" =? 123)%N with true. cbn iota.
    rewrite write_members_cons.
    change (skip_ws (String quote ?u)) with (String quote u).
    cbn -[read_value read_members skip_ws append write_members dict_set].
    pose proof (read_kvs ((k, x) :: kvs) ltac:(congruence) HF fuel [] rest _
                  ltac:(lia) (write_members_cons _ _ _ _)) as R.
    rewrite (dict_of_nodup ((k, x) :: kvs) [] Hnd) in R. exact R.
Qed.

(** ** The serialization is long enough for the budget of [loads] *)

Lemma length_items (xs : list value) :
  Forall (fun x => size x <= String.length (dumps x)) xs ->
  sizes xs <= S (String.length (write_items dumps xs)).
Proof.
  induction 1 as [|x xs Hx _ IH]; cbn [sizes fold_right write_items].
  - lia.
  - fold (sizes xs). rewrite length_append.
    destruct xs as [|y ys]; [cbn; lia|].
    rewrite length_append. cbn [String.length]. lia.
Qed.

Lemma length_members (kvs : list (string * value)) :
  Forall (fun kv => size (snd kv) <= String.length (dumps (snd kv))) kvs ->
  member_sizes kvs <= S (String.length (write_members dumps kvs)).
Proof.
  induction 1 as [|[k x] kvs Hx _ IH];
    cbn [member_sizes fold_right write_members snd] in *.
  - lia.
  - fold (member_sizes kvs). rewrite !length_append.
    destruct kvs as [|y ys]; [cbn; lia|].
    rewrite length_append. cbn [String.length]. lia.
Qed.

Lemma size_le_length (v : value) : size v <= String.length (dumps v).
Proof.
  induction v as [| b | z | s | xs IH | kvs IH] using value_induction.
  - cbn. lia.
  - destruct b; cbn; lia.
  - cbn [size dumps]. destruct (dumps_head (Int z)) as (c & s & E & _).
    cbn [dumps] in E. rewrite E. cbn. lia.
  - cbn. lia.
  - rewrite size_arr. cbn [dumps]. rewrite !length_append.
    pose proof (length_items xs IH). cbn [String.length]. lia.
  - rewrite size_obj. cbn [dumps]. rewrite !length_append.
    pose proof (length_members kvs IH). cbn [String.length]. lia.
Qed.

(** [loads] gives back what [dumps] wrote. *)
Theorem loads_dumps (v : value) : wf v -> loads (dumps v) = Return v.
Proof.
  intros Hwf. unfold loads.
  rewrite <- (append_nil_r (dumps v)) at 2. rewrite skip_ws_dumps.
  rewrite (read_dumps v Hwf) by (pose proof (size_le_length v); lia || reflexivity).
  reflexivity.
Qed.

(** ** The serialization is printable ASCII on one line *)

Lemma printable_append (a b : string) :
  printable (a ++ b) = printable a && printable b.
Proof.
  induction a as [|c a IH]; cbn [append printable]; [reflexivity|].
  now rewrite IH, andb_assoc.
Qed.

Lemma printable_write_char (c : ascii) : printable (write_char c) = true.
Proof. destruct c as [[] [] [] [] [] [] [] []]; reflexivity. Qed.

Lemma printable_write_string (s : string) : printable (write_string s) = true.
Proof.
  unfold write_string. cbn [printable]. rewrite printable_append.
  change (printable (String quote "")) with true. rewrite andb_true_r.
  induction s as [|c s IH]; [reflexivity|].
  cbn [write_chars]. now rewrite printable_append, printable_write_char.
Qed.

Lemma printable_digit (k : N) :
  (k < 10)%N -> printable (String (digit_char k) "") = true.
Proof.
  intros H. destruct (digit_char_spec k H) as (Hd & _).
  unfold is_digit in Hd. apply andb_prop in Hd as [H1 H2].
  apply N.leb_le in H1. apply N.leb_le in H2. cbn [printable].
  rewrite andb_true_r. apply andb_true_intro. split; apply N.leb_le; lia.
Qed.

Lemma printable_write_digits (f : nat) : forall n acc,
  printable acc = true -> printable (write_digits f n acc) = true.
Proof.
  induction f as [|f IH]; intros n acc Ha; cbn [write_digits]; [exact Ha|].
  assert (Hm : (n mod 10 < 10)%N) by (apply N.mod_lt; discriminate).
  assert (Hacc : printable (String (digit_char (n mod 10)) acc) = true).
  { change (String ?c acc) with (String c "" ++ acc).
    now rewrite printable_append, printable_digit, Ha. }
  destruct (n / 10 =? 0)%N; [exact Hacc | now apply IH].
Qed.

Lemma printable_write_int (z : Z) : printable (write_int z) = true.
Proof.
  destruct z; unfold write_int, write_nat; cbn [printable];
    change ((32 <=? code "-") && (code "-" <=? 126))%N with true;
    cbn [andb]; now apply printable_write_digits.
Qed.

Lemma printable_items (xs : list value) :
  Forall (fun x => printable (dumps x) = true) xs ->
  printable (write_items dumps xs) = true.
Proof.
  induction 1 as [|x xs Hx _ IH]; [reflexivity|].
  cbn [write_items]. rewrite printable_append, Hx.
  destruct xs; [reflexivity|]. rewrite printable_append, IH. reflexivity.
Qed.

Lemma printable_members (kvs : list (string * value)) :
  Forall (fun kv => printable (dumps (snd kv)) = true) kvs ->
  printable (write_members dumps kvs) = true.
Proof.
  induction 1 as [|[k x] kvs Hx _ IH]; [reflexivity|].
  cbn [write_members snd] in *.
  rewrite !printable_append, printable_write_string, Hx.
  destruct kvs; [reflexivity|]. rewrite printable_append, IH. reflexivity.
Qed.

Lemma printable_dumps (v : value) : printable (dumps v) = true.
Proof.
  induction v as [| b | z | s | xs IH | kvs IH] using value_induction.
  - reflexivity.
  - destruct b; reflexivity.
  - apply printable_write_int.
  - apply printable_write_string.
  - cbn [dumps]. rewrite !printable_append, (printable_items xs IH).
    reflexivity.
  - cbn [dumps]. rewrite !printable_append, (printable_members kvs IH).
    reflexivity.
Qed.

Lemma printable_one_line (s : string) : printable s = true -> str_in nl s = false.
Proof.
  induction s as [|c s IH]; [reflexivity|]. cbn [printable]. intros H.
  apply andb_prop in H as [Hc Hs]. rewrite str_in_nl_cons, (IH Hs), orb_false_r.
  apply andb_prop in Hc as [Hc _]. apply N.leb_le in Hc.
  destruct (Ascii.eqb_spec c LF) as [->|_]; [|reflexivity].
  cbn in Hc. lia.
Qed.

(** ** The serialization has no white space around it *)

Lemma rstrip_last (s : string) (c : ascii) :
  isspace c = false -> rstrip (s ++ String c "") = s ++ String c "".
Proof.
  intros Hc. induction s as [|d s IH]; cbn [append rstrip].
  - now rewrite Hc.
  - rewrite IH. now destruct s.
Qed.

Lemma digit_not_space (k : N) : (k < 10)%N -> isspace (digit_char k) = false.
Proof.
  intros H.
  assert (E : (k = 0 \/ k = 1 \/ k = 2 \/ k = 3 \/ k = 4 \/ k = 5 \/ k = 6 \/
               k = 7 \/ k = 8 \/ k = 9)%N) by lia.
  repeat (destruct E as [-> | E]; [reflexivity|]).
  subst k. reflexivity.
Qed.

Lemma write_nat_last (n : N) :
  exists s c, write_nat n = s ++ String c "" /\ isspace c = false.
Proof.
  unfold write_nat. cbn [write_digits].
  assert (Hm : (n mod 10 < 10)%N) by (apply N.mod_lt; discriminate).
  destruct (n / 10 =? 0)%N.
  - exists "", (digit_char (n mod 10)). split; [reflexivity|].
    now apply digit_not_space.
  - rewrite write_digits_append. do 2 eexists. split; [reflexivity|].
    now apply digit_not_space.
Qed.

Lemma dumps_last (v : value) :
  exists s c, dumps v = s ++ String c "" /\ isspace c = false.
Proof.
  destruct v as [| [|] | [|p|p] | s | xs | kvs]; cbn [dumps].
  - now exists "nul", "l"%char.
  - now exists "tru", "e"%char.
  - now exists "fals", "e"%char.
  - apply write_nat_last.
  - apply write_nat_last.
  - unfold write_int. destruct (write_nat_last (N.pos p)) as (s & c & -> & Hc).
    now exists (String "-" s), c.
  - exists (String quote (write_chars s)), quote. split; reflexivity.
  - exists ("[" ++ write_items dumps xs), "]"%char.
    split; [now rewrite append_assoc | reflexivity].
  - exists ("{" ++ write_members dumps kvs), "}"%char.
    split; [now rewrite append_assoc | reflexivity].
Qed.

Lemma strip_dumps (v : value) : strip (dumps v) = dumps v.
Proof.
  unfold strip.
  assert (E : lstrip (dumps v) = dumps v).
  { destruct (dumps_head v) as (c & s & -> & Hc).
    apply opens_value_facts in Hc as (_ & Hc & _). cbn [lstrip].
    now rewrite Hc. }
  rewrite E. destruct (dumps_last v) as (s & c & -> & Hc).
  now apply rstrip_last.
Qed.

Lemma dumps_truthy (v : value) : truthy (dumps v) = true.
Proof. destruct (dumps_head v) as (c & s & -> & _). reflexivity. Qed.

(** Every well-formed value is valid for the reader and the writer: its
    serialization is one line, not blank, that reads back as the value. *)
Theorem dumps_valid (v : value) : wf v -> valid loads dumps v.
Proof.
  intros Hwf. unfold valid, serializes. rewrite strip_dumps.
  split; [|split].
  - apply printable_one_line, printable_dumps.
  - apply dumps_truthy.
  - now apply loads_dumps.
Qed.

End JsonFacts.

(* ------------------------------------------------------------------ *)
(** * Concrete runs *)

(** The examples of the specification. *)

Example two_lines_in_one_fragment :
  emitted Json.loads (transport [text "{'a':1}|{'b':2}|"] [] (Some 0%Z)) =
  [doc_a; doc_b].
Proof. reflexivity. Qed.

Example one_line_in_two_fragments :
  emitted Json.loads (transport [text "{'a':"; text "1}|"] [] (Some 0%Z)) =
  [doc_a].
Proof. reflexivity. Qed.

Example blank_leftover :
  _patched_receive_messages Json.loads (transport ["   "] [] (Some 0%Z)) unbound =
  ([], {| stderr_lines := []; buffer := "   " |}, Return tt).
Proof. reflexivity. Qed.

Example noise_leftover :
  _patched_receive_messages Json.loads (transport ["not-json"] [] (Some 0%Z))
    unbound =
  ([], {| stderr_lines := []; buffer := "not-json" |}, Return tt).
Proof. reflexivity. Qed.

Example broken_leftover :
  terminal Json.loads (transport ["{broken"] [] (Some 0%Z)) =
  Some (CLIJSONDecodeError "{broken" Json.ExpectingPropertyName).
Proof. reflexivity. Qed.

Example failed_exit_with_error_line :
  terminal Json.loads (transport [] ["Fatal error: bad flag"] (Some 1%Z)) =
  Some (ProcessError "CLI process failed" 1 "Fatal error: bad flag").
Proof. reflexivity. Qed.

Example failed_exit_without_diagnostics :
  terminal Json.loads (transport [] [] (Some 1%Z)) = None.
Proof. reflexivity. Qed.

(** Around the line that never decodes: a document in front of it is
    yielded, the one behind it is not; with an opening brace at its head the
    flush raises. *)
Example document_before_noise :
  _patched_receive_messages Json.loads
    (transport [text "{'a':1}|not-json|{'b':2}|"] [] (Some 0%Z)) unbound =
  ([doc_a],
   {| stderr_lines := []; buffer := text "not-json|{'b':2}|" |}, Return tt).
Proof. reflexivity. Qed.

Example broken_line_before_document :
  emitted Json.loads (transport [text "{oops|{'a':1}|"] [] (Some 0%Z)) = [] /\
  terminal Json.loads (transport [text "{oops|{'a':1}|"] [] (Some 0%Z)) =
  Some (CLIJSONDecodeError (text "{oops|{'a':1}|") Json.ExpectingPropertyName).
Proof. split; reflexivity. Qed.

(** A prefix left in the buffer that is a document by itself is yielded by
    the flush. *)
Example prefix_flushed :
  emitted Json.loads (transport [text "{'a':1}|12"] [] (Some 0%Z)) =
  [doc_a; Json.Int 12].
Proof. reflexivity. Qed.

(** A document written over two lines is kept until the stream closes. *)
Example document_over_two_lines :
  on_chunk Json.loads (text "{'a':|1}|") {| stderr_lines := []; buffer := "" |} =
  ([], {| stderr_lines := []; buffer := text "{'a':|1}|" |}, Return tt) /\
  emitted Json.loads (transport [text "{'a':|1}|"] [] (Some 0%Z)) = [doc_a].
Proof. split; reflexivity. Qed.



(** The round trip for the reader and writer of [Json]: the line of any
    well-formed value, cut into fragments in any way, decodes to the value. *)
Corollary json_round_trip (v : Json.value) (chunks lines : list string)
    (code : option Z) :
  Json.wf v ->
  joined chunks = Json.dumps v ++ nl ->
  emitted Json.loads (transport chunks lines code) = [v].
Proof.
  intros Hwf Htext.
  apply (round_trip_fragments Json.loads (transport chunks lines code)
           {| returncode := code |}
           {| items := chunks; stops := EndOfStream |} (Json.dumps v) v);
    [now apply JsonFacts.dumps_valid | exact Htext | reflexivity | reflexivity].
Qed.

(** The theorems at concrete inputs. *)

Lemma valid_doc_a : valid Json.loads Json.dumps doc_a.
Proof. repeat split; reflexivity. Defined.

Lemma valid_doc_b : valid Json.loads Json.dumps doc_b.
Proof. repeat split; reflexivity. Defined.

Lemma valid_doc_c : valid Json.loads Json.dumps doc_c.
Proof. repeat split; reflexivity. Defined.


(** Two complete lines and the first half of a third. *)
Lemma complete_lines_then_prefix_witness :
  on_chunk Json.loads (text "{'a': 1}|{'b': 2}|{'c'")
    {| stderr_lines := []; buffer := "" |} =
  ([doc_a; doc_b], {| stderr_lines := []; buffer := text "{'c'" |}, Return tt) /\
  on_chunk Json.loads (text ": 3}|")
    {| stderr_lines := []; buffer := text "{'c'" |} =
  ([doc_c], {| stderr_lines := []; buffer := "" |}, Return tt).
Proof.
  assert (H := complete_lines_then_prefix Json.loads Json.dumps
            [doc_a; doc_b] (text "{'c'") []
            (Forall_cons _ valid_doc_a (Forall_cons _ valid_doc_b (Forall_nil _)))
            (or_intror (ex_intro _ doc_c (ex_intro _ (text ": 3}")
               (conj valid_doc_c eq_refl))))).
  destruct H as (H1 & _ & H3). split.
  - exact H1.
  - exact (H3 doc_c (text ": 3}") valid_doc_c eq_refl).
Defined.


(** Exit code 1 and a diagnostic line with "error" in capitals. *)
Lemma process_failure_iff_witness :
  terminal Json.loads (transport [text "{'a':1}|"] ["  Fatal ERROR: bad flag "] (Some 1%Z)) =
  Some (ProcessError "CLI process failed" 1 "Fatal ERROR: bad flag").
Proof.
  apply (process_failure_iff Json.loads
           (transport [text "{'a':1}|"] ["  Fatal ERROR: bad flag "] (Some 1%Z))
           {| returncode := Some 1%Z |}
           {| items := [text "{'a':1}|"]; stops := EndOfStream |}
           eq_refl eq_refl).
  intros line e H. discriminate H.
Defined.


(** The invariant after the second of three fragments. *)
Lemma buffer_is_unconsumed_tail_witness :
  exists out b lines,
    for_each [text "{'a':"; text "1}| |{'b'"] (on_chunk Json.loads)
      {| stderr_lines := []; buffer := "" |} =
    (out, {| stderr_lines := []; buffer := b |}, Return tt) /\
    consumed Json.loads lines out /\
    text "{'a':" ++ text "1}| |{'b'" ++ "" = unlines lines ++ b.
Proof.
  exact (buffer_is_unconsumed_tail Json.loads
           [text "{'a':"; text "1}| |{'b'"; text ":2}|"] 2 []).
Defined.




(** The same fragments with different diagnostics and exit codes. *)
Lemma diagnostics_do_not_interfere_witness :
  emitted Json.loads (transport [text "{'a':1}|{'b'"; text ":2}|"] [] (Some 0%Z)) =
  emitted Json.loads
    (transport [text "{'a':1}|{'b'"; text ":2}|"] ["error: crash"] (Some 2%Z)) /\
  without_process_error
    (terminal Json.loads
       (transport [text "{'a':1}|{'b'"; text ":2}|"] [] (Some 0%Z))) =
  without_process_error
    (terminal Json.loads
       (transport [text "{'a':1}|{'b'"; text ":2}|"] ["error: crash"] (Some 2%Z))).
Proof.
  exact (diagnostics_do_not_interfere Json.loads
           (transport [text "{'a':1}|{'b'"; text ":2}|"] [] (Some 0%Z))
           (transport [text "{'a':1}|{'b'"; text ":2}|"] ["error: crash"] (Some 2%Z))
           {| returncode := Some 0%Z |} {| returncode := Some 2%Z |}
           {| items := [text "{'a':1}|{'b'"; text ":2}|"]; stops := EndOfStream |}
           {| items := [text "{'a':1}|{'b'"; text ":2}|"]; stops := EndOfStream |}
           eq_refl eq_refl eq_refl eq_refl eq_refl).
Defined.

(* ------------------------------------------------------------------ *)
(** * More about the decoder *)

Section MoreProperties.

Context {Message JSONDecodeError : Type}.
Variable json_loads : string -> outcome JSONDecodeError Message.

(** With a process and a stdout stream, the whole run is decided by the
    text of the fragments, the diagnostic log and the process. *)
Lemma run_of_text self p stdout out b l :
  _process self = Some p ->
  _stdout_stream self = Some stdout ->
  scans json_loads (joined (items stdout)) out b ->
  let final := {| stderr_lines := diagnostic_log self; buffer := b |} in
  _patched_receive_messages json_loads self l =
  ((out ++ fst (fst (flush json_loads final)))%list, final,
   match snd (flush json_loads final) with
   | Return _ => snd (@check_exit Message JSONDecodeError p final)
   | Raise e => Raise e
   end).
Proof.
  intros Hp Hs Hsc. apply (run_shape json_loads self p stdout); auto.
  now apply reads_of_text.
Qed.

(** How the text is cut into fragments does not matter, nor how the
    streams stop: two runs with the same process, the same diagnostic
    lines and the same text on stdout yield the same messages, end with
    the same exception or none, and leave the same locals. *)
Theorem fragmentation_is_immaterial self1 self2 p s1 s2 l :
  _process self1 = Some p -> _process self2 = Some p ->
  _stdout_stream self1 = Some s1 -> _stdout_stream self2 = Some s2 ->
  joined (items s1) = joined (items s2) ->
  diagnostic_log self1 = diagnostic_log self2 ->
  _patched_receive_messages json_loads self1 l =
  _patched_receive_messages json_loads self2 l.
Proof.
  intros Hp1 Hp2 Hs1 Hs2 Htext Hlog.
  destruct (scans_total json_loads (joined (items s1))) as (out & b & Hsc).
  rewrite (run_of_text self1 p s1 out b l Hp1 Hs1 Hsc).
  rewrite Htext in Hsc.
  rewrite (run_of_text self2 p s2 out b l Hp2 Hs2 Hsc).
  now rewrite Hlog.
Qed.

(** A blank line after lines that were consumed is taken off the text and
    changes nothing: the run is the one of the text without it. *)
Theorem blank_line_is_dropped self1 self2 p s1 s2 lines out blank rest l :
  _process self1 = Some p -> _process self2 = Some p ->
  _stdout_stream self1 = Some s1 -> _stdout_stream self2 = Some s2 ->
  diagnostic_log self1 = diagnostic_log self2 ->
  consumed json_loads lines out ->
  str_in nl blank = false -> truthy (strip blank) = false ->
  joined (items s1) = unlines lines ++ blank ++ nl ++ rest ->
  joined (items s2) = unlines lines ++ rest ->
  _patched_receive_messages json_loads self1 l =
  _patched_receive_messages json_loads self2 l.
Proof.
  intros Hp1 Hp2 Hs1 Hs2 Hlog Hc Hnl Hblank Ht1 Ht2.
  destruct (scans_total json_loads rest) as (o & b & Hsc).
  assert (H2 := consumed_then_scans json_loads lines out Hc rest o b Hsc).
  assert (H1 := consumed_then_scans json_loads lines out Hc
                  (blank ++ nl ++ rest) o b
                  (scans_blank json_loads blank rest o b Hnl Hblank Hsc)).
  rewrite <- Ht1 in H1. rewrite <- Ht2 in H2.
  rewrite (run_of_text self1 p s1 _ b l Hp1 Hs1 H1),
    (run_of_text self2 p s2 _ b l Hp2 Hs2 H2).
  now rewrite Hlog.
Qed.

(** A document written over several lines, the first of which does not
    decode, is not yielded while the fragments are read, in whatever
    pieces they come; the flush yields it when the stream closes. *)
Theorem document_over_lines_waits_for_close self p stdout line rest e v :
  _process self = Some p ->
  _stdout_stream self = Some stdout ->
  joined (items stdout) = line ++ nl ++ rest ->
  str_in nl line = false ->
  truthy (strip line) = true ->
  json_loads (strip line) = Raise e ->
  truthy (strip (line ++ nl ++ rest)) = true ->
  json_loads (strip (line ++ nl ++ rest)) = Return v ->
  (forall sl,
     for_each (items stdout) (on_chunk json_loads)
       {| stderr_lines := sl; buffer := "" |} =
     ([], {| stderr_lines := sl; buffer := line ++ nl ++ rest |}, Return tt)) /\
  emitted json_loads self = [v] /\
  forall b e', terminal json_loads self <> Some (CLIJSONDecodeError b e').
Proof.
  intros Hp Hs Htext Hl Ht He Htr Hv.
  assert (Hsc : scans json_loads (joined (items stdout)) [] (line ++ nl ++ rest)).
  { rewrite Htext. now apply scans_defer with (e := e). }
  split; [|split].
  - intros sl. apply reads_run. now apply reads_of_text.
  - unfold emitted. rewrite (run_of_text self p stdout _ _ _ Hp Hs Hsc).
    cbn [fst]. now rewrite (flush_value json_loads _ _ v Htr Hv).
  - intros b e'. unfold terminal.
    rewrite (run_of_text self p stdout _ _ _ Hp Hs Hsc). cbn [snd].
    rewrite (flush_value json_loads _ _ v Htr Hv). cbn [snd].
    destruct (check_exit p _) as [[o l'] [u|x]] eqn:Hx; cbn [snd];
      [discriminate|].
    apply check_exit_raises in Hx as (code & t & ->). discriminate.
Qed.

(** ** The patch *)

(** Applying the patch leaves the class patched, with the decoder as its
    method unless the flag was already set, in which case the class is left
    as it is; applying it again changes nothing. *)
Theorem apply_patch_once (cls : TransportClass) :
  patched_flag (apply_patch json_loads cls) = true /\
  (patched_flag cls = false ->
     receive_messages (apply_patch json_loads cls) =
     _patched_receive_messages json_loads) /\
  (patched_flag cls = true -> apply_patch json_loads cls = cls) /\
  apply_patch json_loads (apply_patch json_loads cls) =
  apply_patch json_loads cls.
Proof.
  unfold apply_patch. destruct (patched_flag cls) eqn:Hf.
  - rewrite Hf. repeat split; congruence.
  - cbn. repeat split; congruence.
Qed.

End MoreProperties.

(* ------------------------------------------------------------------ *)
(** * Facts about splitting, joining and trimming *)

Lemma split_char_nonempty (c : ascii) (s : string) : split_char c s <> [].
Proof.
  induction s as [|d s IH]; cbn [split_char]; [discriminate|].
  destruct (Ascii.eqb d c); [discriminate|].
  destruct (split_char c s); discriminate.
Qed.

Lemma split_char_cons (c d : ascii) (s : string) :
  Ascii.eqb d c = false ->
  split_char c (String d s) =
  String d (hd "" (split_char c s)) :: tl (split_char c s).
Proof.
  intros H. cbn [split_char]. rewrite H.
  pose proof (split_char_nonempty c s). now destruct (split_char c s).
Qed.

(** The character [c] is in [s]. *)
Lemma str_in_char_cons (c d : ascii) (s : string) :
  str_in (String c "") (String d s) = Ascii.eqb d c || str_in (String c "") s.
Proof. cbn [str_in startswith]. now rewrite andb_true_r. Qed.

Lemma str_in_char_append (c : ascii) (a b : string) :
  str_in (String c "") (a ++ b) =
  str_in (String c "") a || str_in (String c "") b.
Proof.
  induction a as [|d a IH]; [reflexivity|].
  change (String d a ++ b) with (String d (a ++ b)).
  rewrite !str_in_char_cons, IH. now rewrite orb_assoc.
Qed.

(** Without the separator the text is the only piece. *)
Lemma split_char_none (c : ascii) (s : string) :
  str_in (String c "") s = false -> split_char c s = [s].
Proof.
  induction s as [|d s IH]; [reflexivity|].
  rewrite str_in_char_cons. intros H. apply orb_false_elim in H as [Hd Hs].
  rewrite (split_char_cons _ _ _ Hd), (IH Hs). reflexivity.
Qed.

(** Splitting a text at a separator and then each side. *)
Lemma split_char_append (c : ascii) (a b : string) :
  split_char c (a ++ String c b) = (split_char c a ++ split_char c b)%list.
Proof.
  induction a as [|d a IH].
  - cbn [append split_char app]. now rewrite Ascii.eqb_refl.
  - change (String d a ++ String c b) with (String d (a ++ String c b)).
    cbn [split_char]. rewrite IH.
    destruct (Ascii.eqb d c); [reflexivity|].
    pose proof (split_char_nonempty c a). now destruct (split_char c a).
Qed.

(** No piece holds the separator. *)
Lemma split_char_pieces (c : ascii) (s : string) :
  Forall (fun piece => str_in (String c "") piece = false) (split_char c s).
Proof.
  induction s as [|d s IH]; cbn [split_char].
  - now constructor.
  - destruct (Ascii.eqb d c) eqn:Hd; [now constructor|].
    destruct (split_char c s) as [|piece pieces]; inversion IH; subst;
      constructor; auto.
    + now rewrite str_in_char_cons, Hd.
    + now rewrite str_in_char_cons, Hd.
Qed.

(** A character that is not in the text is in none of its pieces. *)
Lemma split_char_absent (c x : ascii) (s : string) :
  str_in (String x "") s = false ->
  Forall (fun piece => str_in (String x "") piece = false) (split_char c s).
Proof.
  induction s as [|d s IH]; cbn [split_char]; intros H.
  - now constructor.
  - rewrite str_in_char_cons in H. apply orb_false_elim in H as [Hd Hs].
    specialize (IH Hs).
    destruct (Ascii.eqb d c); [now constructor|].
    destruct (split_char c s) as [|piece pieces]; inversion IH; subst;
      constructor; auto; now rewrite str_in_char_cons, Hd.
Qed.

(** Joining the pieces with the separator gives the text back. *)
Lemma join_split_char (c : ascii) (s : string) :
  join (String c "") (split_char c s) = s.
Proof.
  induction s as [|d s IH]; [reflexivity|]. cbn [split_char].
  destruct (Ascii.eqb_spec d c) as [->|_].
  - unfold join in *. cbn [String.concat].
    pose proof (split_char_nonempty c s).
    destruct (split_char c s) eqn:E; [contradiction|].
    rewrite IH. reflexivity.
  - unfold join in *.
    destruct (split_char c s) as [|piece [|p2 pieces]]; cbn [String.concat] in *;
      now rewrite <- IH.
Qed.

(** Pieces without the separator, joined and split, come back. *)
Lemma split_char_join (c : ascii) (xs : list string) :
  xs <> [] ->
  Forall (fun x => str_in (String c "") x = false) xs ->
  split_char c (join (String c "") xs) = xs.
Proof.
  intros Hne HF. induction HF as [|x xs Hx HF IH]; [contradiction|].
  destruct xs as [|y ys].
  - cbn. now apply split_char_none.
  - assert (E : join (String c "") (x :: y :: ys) =
                x ++ String c (join (String c "") (y :: ys))) by reflexivity.
    rewrite E, split_char_append, (split_char_none _ _ Hx), IH by discriminate.
    reflexivity.
Qed.

Lemma list_in_spec (x : string) (xs : list string) :
  list_in x xs = true <-> In x xs.
Proof.
  induction xs as [|y xs IH]; cbn [list_in In].
  - split; [discriminate | contradiction].
  - rewrite orb_true_iff, IH, String.eqb_eq. tauto.
Qed.

Lemma append_inv_tail (a b s : string) : a ++ s = b ++ s -> a = b.
Proof.
  revert b. induction a as [|x a IH]; intros [|y b] H; cbn [append] in H.
  - reflexivity.
  - apply (f_equal String.length) in H. cbn [String.length] in H.
    rewrite length_append in H. lia.
  - apply (f_equal String.length) in H. cbn [String.length] in H.
    rewrite length_append in H. lia.
  - injection H as -> H. f_equal. now apply IH.
Qed.

(** *** Trimming *)

Lemma lstrip_absent (x : ascii) (s : string) :
  str_in (String x "") s = false -> str_in (String x "") (lstrip s) = false.
Proof.
  induction s as [|d s IH]; [reflexivity|]. intros H. cbn [lstrip].
  destruct (isspace d); [|exact H].
  rewrite str_in_char_cons in H. apply orb_false_elim in H as [_ Hs]. auto.
Qed.

Lemma rstrip_absent (x : ascii) (s : string) :
  str_in (String x "") s = false -> str_in (String x "") (rstrip s) = false.
Proof.
  induction s as [|d s IH]; [reflexivity|]. intros H. cbn [rstrip].
  rewrite str_in_char_cons in H. apply orb_false_elim in H as [Hd Hs].
  specialize (IH Hs).
  destruct (rstrip s) eqn:E.
  - destruct (isspace d); [reflexivity|]. now rewrite str_in_char_cons, Hd.
  - now rewrite str_in_char_cons, Hd, IH.
Qed.

Lemma strip_absent (x : ascii) (s : string) :
  str_in (String x "") s = false -> str_in (String x "") (strip s) = false.
Proof. intros H. unfold strip. now apply rstrip_absent, lstrip_absent. Qed.

(** What is trimmed on the right is empty or ends with a character that is
    not white space. *)
Lemma rstrip_tail (s : string) :
  rstrip s = "" \/ exists t c, rstrip s = t ++ String c "" /\ isspace c = false.
Proof.
  induction s as [|d s IH]; [now left|]. cbn [rstrip].
  destruct IH as [-> | (t & c & -> & Hc)].
  - destruct (isspace d) eqn:Hd; [now left|]. right. now exists "", d.
  - right. exists (String d t), c. split; [|exact Hc].
    now destruct t.
Qed.

Lemma rstrip_idempotent (s : string) : rstrip (rstrip s) = rstrip s.
Proof.
  destruct (rstrip_tail s) as [-> | (t & c & -> & Hc)]; [reflexivity|].
  now apply JsonFacts.rstrip_last.
Qed.

Lemma lstrip_fixed (c : ascii) (s : string) :
  isspace c = false -> lstrip (String c s) = String c s.
Proof. intros H. cbn [lstrip]. now rewrite H. Qed.

(** Trimming twice is trimming once. *)
Lemma strip_idempotent (s : string) : strip (strip s) = strip s.
Proof.
  destruct (truthy (strip s)) eqn:Ht.
  - destruct (strip_head s Ht) as (c & t & t' & _ & E & Hc).
    unfold strip at 1. rewrite E, (lstrip_fixed _ _ Hc), <- E.
    unfold strip. apply rstrip_idempotent.
  - destruct (strip s); [reflexivity | discriminate].
Qed.

(** A trimmed text that is not empty is untouched by trimming on either
    side. *)
Lemma trimmed_sides (s : string) :
  truthy s = true -> strip s = s -> lstrip s = s /\ rstrip s = s.
Proof.
  intros Ht E. assert (Ht' : truthy (strip s) = true) by now rewrite E.
  destruct (strip_head s Ht') as (c & t & t' & _ & E' & Hc).
  rewrite E in E'. subst s. split; [now apply lstrip_fixed|].
  unfold strip in E. now rewrite (lstrip_fixed _ _ Hc) in E.
Qed.

Lemma lstrip_append_fixed (a b : string) :
  truthy a = true -> lstrip a = a -> lstrip (a ++ b) = a ++ b.
Proof.
  destruct a as [|c a]; [discriminate|]. intros _ H. cbn [lstrip append] in *.
  destruct (isspace c) eqn:Hc; [|reflexivity].
  exfalso. apply (f_equal String.length) in H.
  assert (L : forall s, String.length (lstrip s) <= String.length s).
  { clear. induction s as [|d s IH]; cbn [lstrip]; [lia|].
    destruct (isspace d); cbn [String.length]; lia. }
  specialize (L a). cbn [String.length] in H. lia.
Qed.

Lemma rstrip_append_fixed (a b : string) :
  truthy b = true -> rstrip b = b -> rstrip (a ++ b) = a ++ b.
Proof.
  intros Ht Hb. induction a as [|c a IH]; [exact Hb|].
  cbn [append rstrip]. rewrite IH.
  destruct (a ++ b) eqn:E; [|reflexivity].
  destruct a; [cbn in E; subst b; discriminate | discriminate].
Qed.

Lemma rstrip_space (a : string) (c : ascii) :
  isspace c = true -> rstrip (a ++ String c "") = rstrip a.
Proof.
  intros Hc. induction a as [|d a IH]; cbn [append rstrip].
  - now rewrite Hc.
  - now rewrite IH.
Qed.

(* ------------------------------------------------------------------ *)
(** * The queries extracted from Prolog code *)

Module AgentFacts.
Import Agent.

(** One turn of the loop adds the name of a line that defines a predicate,
    if it is new. *)
Lemma scan_line_spec (predicates : list string) (raw : string) :
  scan_line predicates raw =
  if defines_predicate raw && negb (list_in (predicate_name raw) predicates)
  then (predicates ++ [predicate_name raw])%list
  else predicates.
Proof.
  unfold scan_line, defines_predicate. fold (predicate_name raw).
  destruct (truthy (strip raw)); [|reflexivity].
  destruct (startswith (strip raw) "%"); [reflexivity|].
  destruct (str_in "(" (strip raw)); [|reflexivity].
  destruct (endswith (strip raw) "." || str_in ":-" (strip raw));
    [|reflexivity].
  destruct (str_in ":-" (predicate_name raw)); [reflexivity|].
  destruct (truthy (predicate_name raw)); reflexivity.
Qed.

Lemma scan_line_skip (predicates : list string) (raw : string) :
  defines_predicate raw = false -> scan_line predicates raw = predicates.
Proof. intros H. now rewrite scan_line_spec, H. Qed.

(** The names found are those found before and those of the lines that
    define a predicate. *)
Lemma fold_scan_in (lines : list string) : forall acc p,
  In p (fold_left scan_line lines acc) <->
  In p acc \/
  exists raw, In raw lines /\ defines_predicate raw = true /\
              predicate_name raw = p.
Proof.
  induction lines as [|raw lines IH]; intros acc p; cbn [fold_left In].
  - split; [now left | intros [H | (raw & [] & _)]; exact H].
  - rewrite IH, scan_line_spec. split.
    + intros [H | (r & Hr & Hd & E)].
      * destruct (defines_predicate raw) eqn:Hd;
          [destruct (list_in (predicate_name raw) acc) eqn:Hin|];
          cbn [andb negb] in H; try (now left).
        apply in_app_or in H as [H | [<- | []]]; [now left|].
        right. exists raw. auto.
      * right. exists r. auto.
    + intros [H | (r & [<- | Hr] & Hd & E)].
      * left. destruct (defines_predicate raw && negb _); [|exact H].
        apply in_or_app. now left.
      * left. rewrite Hd. cbn [andb].
        destruct (list_in (predicate_name raw) acc) eqn:Hin; cbn [negb].
        -- apply list_in_spec in Hin. now rewrite <- E.
        -- apply in_or_app. right. left. exact E.
      * right. exists r. auto.
Qed.

Lemma fold_scan_nodup (lines : list string) : forall acc,
  NoDup acc -> NoDup (fold_left scan_line lines acc).
Proof.
  induction lines as [|raw lines IH]; intros acc H; cbn [fold_left]; [exact H|].
  apply IH. rewrite scan_line_spec.
  destruct (defines_predicate raw); cbn [andb]; [|exact H].
  destruct (list_in (predicate_name raw) acc) eqn:Hin; cbn [negb]; [exact H|].
  apply NoDup_app; [exact H | repeat constructor; intros [] | ].
  intros x Hx [<- | []]. apply list_in_spec in Hx. congruence.
Qed.

Lemma query_injective (p q : string) : p ++ "(_, _)" = q ++ "(_, _)" -> p = q.
Proof. apply append_inv_tail. Qed.

Lemma query_not_true (p : string) : p ++ "(_, _)" <> "true".
Proof.
  intros H. apply (f_equal String.length) in H.
  rewrite length_append in H. cbn [String.length] in H. lia.
Qed.

Lemma extract_unfold (content : string) :
  _extract_queries_from_content content =
  match fold_left scan_line (split_char LF content) [] with
  | [] => ["true"]
  | p :: ps => map (fun pred => pred ++ "(_, _)") (p :: ps)
  end.
Proof.
  unfold _extract_queries_from_content.
  now destruct (fold_left scan_line (split_char LF content) []).
Qed.

(** The queries are those of the lines that define a predicate, each the
    name in front of the first parenthesis of the line with two anonymous
    arguments; the query [true] is there exactly when no line defines a
    predicate. *)
Theorem extracted_queries (content q : string) :
  In q (_extract_queries_from_content content) <->
  (exists raw, In raw (split_char LF content) /\
               defines_predicate raw = true /\
               q = predicate_name raw ++ "(_, _)") \/
  (q = "true" /\
   forall raw, In raw (split_char LF content) -> defines_predicate raw = false).
Proof.
  rewrite extract_unfold.
  pose proof (fold_scan_in (split_char LF content) []) as Hin.
  destruct (fold_left scan_line (split_char LF content) []) as [|p ps].
  - split.
    + intros [<- | []]. right. split; [reflexivity|].
      intros raw Hraw. destruct (defines_predicate raw) eqn:Hd; [|reflexivity].
      exfalso. apply (proj2 (Hin (predicate_name raw))). right. now exists raw.
    + intros [(raw & Hraw & Hd & _) | [-> _]]; [|now left].
      exfalso. apply (proj2 (Hin (predicate_name raw))). right. now exists raw.
  - split.
    + intros H. apply in_map_iff in H as (p' & <- & Hp').
      apply Hin in Hp' as [[] | (raw & Hraw & Hd & <-)].
      left. now exists raw.
    + intros [(raw & Hraw & Hd & ->) | [-> Hnone]].
      * apply in_map_iff. exists (predicate_name raw). split; [reflexivity|].
        apply Hin. right. now exists raw.
      * exfalso. destruct (proj1 (Hin p) (or_introl eq_refl))
          as [[] | (raw & Hraw & Hd & _)].
        rewrite (Hnone raw Hraw) in Hd. discriminate.
Qed.

Lemma nodup_queries (names : list string) :
  NoDup names -> NoDup (map (fun pred => pred ++ "(_, _)") names).
Proof.
  induction 1 as [|p ps Hp _ IH]; cbn [map]; constructor; [|exact IH].
  intros H. apply in_map_iff in H as (p' & E & Hp').
  apply query_injective in E. now subst p'.
Qed.

(** No query comes twice, however many clauses a predicate has. *)
Theorem extracted_queries_distinct (content : string) :
  NoDup (_extract_queries_from_content content).
Proof.
  rewrite extract_unfold.
  pose proof (fold_scan_nodup (split_char LF content) [] (NoDup_nil _)) as H.
  destruct (fold_left scan_line (split_char LF content) []) as [|p ps].
  - repeat constructor. intros [].
  - apply nodup_queries. exact H.
Qed.

Lemma no_parenthesis_no_predicate (raw : string) :
  str_in "(" raw = false -> defines_predicate raw = false.
Proof.
  intros H. unfold defines_predicate.
  rewrite (strip_absent "(" raw H). now rewrite !andb_false_r.
Qed.

(** Code without an opening parenthesis gives the single query [true]. *)
Theorem no_parenthesis_default_query (content : string) :
  str_in "(" content = false ->
  _extract_queries_from_content content = ["true"].
Proof.
  intros H. rewrite extract_unfold.
  pose proof (fold_scan_in (split_char LF content) []) as Hin.
  destruct (fold_left scan_line (split_char LF content) []) as [|p ps];
    [reflexivity|].
  exfalso. destruct (proj1 (Hin p) (or_introl eq_refl))
    as [[] | (raw & Hraw & Hd & _)].
  pose proof (split_char_absent LF "(" content H) as HF.
  rewrite Forall_forall in HF.
  rewrite (no_parenthesis_no_predicate raw (HF raw Hraw)) in Hd. discriminate.
Qed.

Lemma fold_scan_skip (lines : list string) : forall acc raw rest,
  defines_predicate raw = false ->
  fold_left scan_line (lines ++ raw :: rest) acc =
  fold_left scan_line (lines ++ rest) acc.
Proof.
  intros acc raw rest H. rewrite !fold_left_app. cbn [fold_left].
  now rewrite (scan_line_skip _ raw H).
Qed.

(** A line that is blank, a comment or without a parenthesis can be taken
    out of the code: the queries are the same. *)
Theorem skipped_line_is_immaterial (before skipped after : string) :
  str_in nl skipped = false ->
  truthy (strip skipped) = false \/ startswith (strip skipped) "%" = true \/
  str_in "(" skipped = false ->
  _extract_queries_from_content (before ++ nl ++ skipped ++ nl ++ after) =
  _extract_queries_from_content (before ++ nl ++ after).
Proof.
  intros Hnl Hskip.
  assert (Hd : defines_predicate skipped = false).
  { destruct Hskip as [H | [H | H]].
    - unfold defines_predicate. now rewrite H.
    - unfold defines_predicate. rewrite H. cbn [negb].
      now rewrite andb_false_r.
    - now apply no_parenthesis_no_predicate. }
  unfold _extract_queries_from_content.
  change (before ++ nl ++ skipped ++ nl ++ after)
    with (before ++ String LF (skipped ++ String LF after)).
  change (before ++ nl ++ after) with (before ++ String LF after).
  rewrite !split_char_append, (split_char_none LF skipped Hnl).
  cbn [app]. now rewrite (fold_scan_skip _ _ skipped _ Hd).
Qed.

End AgentFacts.

(* ------------------------------------------------------------------ *)
(** * The Prolog server *)

Module PrologFacts.
Import Prolog.

(** ** The program written to the temporary file *)

(** A line as the cleaning keeps it: not empty, trimmed, no directive. *)
Lemma clean_lines_kept (lines : list string) :
  Forall (fun line => truthy line = true /\ strip line = line /\
                      startswith line ":-" = false /\
                      startswith line "?-" = false)
         (clean_lines lines).
Proof.
  induction lines as [|raw lines IH]; cbn [clean_lines]; [constructor|].
  destruct (truthy (strip raw)) eqn:Ht; [|exact IH].
  destruct (startswith (strip raw) ":-") eqn:H1; [exact IH|].
  destruct (startswith (strip raw) "?-") eqn:H2; [exact IH|].
  cbn [andb negb]. constructor; [|exact IH].
  repeat split; auto. apply strip_idempotent.
Qed.

Lemma clean_lines_one_line (lines : list string) :
  Forall (fun raw => str_in nl raw = false) lines ->
  Forall (fun line => str_in nl line = false) (clean_lines lines).
Proof.
  induction 1 as [|raw lines Hraw _ IH]; cbn [clean_lines]; [constructor|].
  destruct (truthy (strip raw) && negb (startswith (strip raw) ":-")
            && negb (startswith (strip raw) "?-")); [|exact IH].
  constructor; [|exact IH]. now apply (strip_absent LF).
Qed.

(** Lines that the cleaning would keep as they are, are kept. *)
Lemma clean_lines_fixed (lines : list string) :
  Forall (fun line => truthy line = true /\ strip line = line /\
                      startswith line ":-" = false /\
                      startswith line "?-" = false) lines ->
  clean_lines lines = lines.
Proof.
  induction 1 as [|line lines (Ht & Hs & H1 & H2) _ IH]; [reflexivity|].
  cbn [clean_lines]. rewrite Hs, Ht, H1, H2. cbn [andb negb]. now rewrite IH.
Qed.

Lemma join_cons2 (x y : string) (ys : list string) :
  join nl (x :: y :: ys) = x ++ String LF (join nl (y :: ys)).
Proof. reflexivity. Qed.

(** Trimmed lines joined by line feeds make a trimmed text. *)
Lemma join_trimmed (lines : list string) :
  lines <> [] ->
  Forall (fun line => truthy line = true /\ strip line = line) lines ->
  truthy (join nl lines) = true /\
  lstrip (join nl lines) = join nl lines /\
  rstrip (join nl lines) = join nl lines.
Proof.
  intros Hne HF. induction HF as [|x xs (Ht & Hs) HF IH]; [contradiction|].
  destruct (trimmed_sides x Ht Hs) as [Hl Hr].
  destruct xs as [|y ys].
  - cbn. auto.
  - destruct IH as (IHt & _ & IHr); [discriminate|].
    rewrite join_cons2. split; [|split].
    + now destruct x.
    + now apply lstrip_append_fixed.
    + change (x ++ String LF (join nl (y :: ys)))
        with (x ++ String LF "" ++ join nl (y :: ys)).
      rewrite <- append_assoc. now apply rstrip_append_fixed.
Qed.

Lemma strip_joined (lines : list string) :
  Forall (fun line => truthy line = true /\ strip line = line) lines ->
  strip (join nl lines ++ nl) = join nl lines.
Proof.
  intros HF. destruct lines as [|x xs]; [reflexivity|].
  destruct (join_trimmed (x :: xs)) as (Ht & Hl & Hr); [discriminate|exact HF|].
  unfold strip. rewrite (lstrip_append_fixed _ _ Ht Hl).
  change (join nl (x :: xs) ++ nl) with (join nl (x :: xs) ++ String LF "").
  now rewrite rstrip_space.
Qed.

Lemma split_joined (lines : list string) :
  Forall (fun line => str_in nl line = false) lines ->
  split_char LF (join nl lines) =
  match lines with [] => [""] | _ :: _ => lines end.
Proof.
  intros HF. destruct lines as [|x xs]; [reflexivity|].
  now apply (split_char_join LF).
Qed.

Lemma kept_lines (prolog_code : string) :
  let lines := clean_lines (split_char LF (strip prolog_code)) in
  Forall (fun line => truthy line = true /\ strip line = line /\
                      startswith line ":-" = false /\
                      startswith line "?-" = false) lines /\
  Forall (fun line => str_in nl line = false) lines.
Proof.
  split; [apply clean_lines_kept|].
  apply clean_lines_one_line, (split_char_pieces LF).
Qed.


(** Cleaning what was cleaned changes nothing. *)
Theorem program_text_idempotent (prolog_code : string) :
  program_text (program_text prolog_code) = program_text prolog_code.
Proof.
  unfold program_text at 1 3. destruct (kept_lines prolog_code) as [Hk Hn].
  set (lines := clean_lines (split_char LF (strip prolog_code))) in *.
  unfold program_text. fold lines.
  rewrite strip_joined
    by (eapply Forall_impl; [|exact Hk]; cbn; intros a (H1 & H2 & _); auto).
  rewrite (split_joined lines Hn).
  destruct lines as [|x xs]; [reflexivity|].
  now rewrite (clean_lines_fixed _ Hk).
Qed.

End PrologFacts.

Module PrologRuns.
Import Prolog.

(** ** Running a query *)

(** The result echoes the query; it is a success exactly when its return
    code is zero, and that is exactly when the temporary file was made and
    written, the process returned with status zero and the file could be
    removed. *)
Theorem execute_success (w : World) (self : Scryer) (prolog_code q : string) :
  let result := snd (execute w self prolog_code q) in
  query result = q /\
  (success result = true <-> returncode result = 0%Z) /\
  (success result = true <->
   exists path done,
     named_temporary_file w = Return path /\
     write w path (program_text prolog_code) = None /\
     subprocess_run w [scryer_path self; path; "-g"; goal_of q] (timeout self)
       = Return done /\
     cp_returncode done = 0%Z /\
     unlink w path = None).
Proof.
  unfold execute, attempt.
  destruct (named_temporary_file w) as [path|e] eqn:Htmp.
  - destruct (write w path (program_text prolog_code)) as [e|] eqn:Hw.
    + destruct e; cbn [snd fst success query returncode In]; (split; [reflexivity|]);
        (split; split; try discriminate);
        intros (p' & d & Hp & Hw' & _); injection Hp as <-; congruence.
    + destruct (subprocess_run w _ (timeout self)) as [done|e] eqn:Hr.
      * destruct (unlink w path) as [e|] eqn:Hu.
        -- destruct e; cbn [snd fst success query returncode In]; (split; [reflexivity|]);
             (split; split; try discriminate);
             intros (p' & d & Hp & _ & _ & _ & Hu'); injection Hp as <-;
             congruence.
        -- cbn [snd fst success query returncode In]. split; [reflexivity|]. rewrite Z.eqb_eq.
           split; [tauto|]. split.
           ++ intros Hz. exists path, done. auto.
           ++ intros (p' & d & Hp & _ & Hr' & Hz & _). injection Hp as <-.
              rewrite Hr in Hr'. now injection Hr' as <-.
      * destruct e; cbn [snd fst success query returncode In]; (split; [reflexivity|]);
          (split; split; try discriminate);
          intros (p' & d & Hp & _ & Hr' & _); injection Hp as <-;
          rewrite Hr in Hr'; discriminate.
  - destruct e; cbn [snd fst success query returncode In]; (split; [reflexivity|]);
      (split; split; try discriminate);
      intros (p' & d & Hp & _); discriminate.
Qed.

(** The temporary file that was made is removed exactly when it was
    written, the process returned and the removal succeeded: after a
    timeout or any other exception it is left behind. *)
Theorem temporary_file_removed_iff (w : World) (self : Scryer)
    (prolog_code q path : string) :
  named_temporary_file w = Return path ->
  let effects := fst (execute w self prolog_code q) in
  In (Created path) effects /\
  (In (Unlinked path) effects <->
   write w path (program_text prolog_code) = None /\
   (exists done,
      subprocess_run w [scryer_path self; path; "-g"; goal_of q] (timeout self)
        = Return done) /\
   unlink w path = None).
Proof.
  intros Htmp. unfold execute, attempt. rewrite Htmp.
  destruct (write w path (program_text prolog_code)) as [e|] eqn:Hw.
  - destruct e; cbn [snd fst success query returncode In]; (split; [now left|]);
      (split; [intros [H|[]]; discriminate | intros (H & _); discriminate]).
  - destruct (subprocess_run w _ (timeout self)) as [done|e] eqn:Hr.
    + destruct (unlink w path) as [e|] eqn:Hu.
      * destruct e; cbn [snd fst success query returncode In]; (split; [now left|]);
          (split; [intros [H|[H|[H|[]]]]; discriminate
                  | intros (_ & _ & H); discriminate]).
      * cbn [snd fst success query returncode In app]. split; [now left|]. split; [|intros _; now do 3 right; left].
        intros _. repeat split. now exists done.
    + destruct e; cbn [snd fst success query returncode In]; (split; [now left|]);
        (split; [intros [H|[H|[H|[]]]]; discriminate
                | intros (_ & (d & H) & _); discriminate]).
Qed.

(** ** The tool *)

(** Without facts or without a query the tool answers with its error text
    and touches nothing: no file is made and no process run. *)
Theorem prolog_query_requires_both (w : World) (scryer : Scryer)
    (facts_and_rules q : string) :
  truthy facts_and_rules = false \/ truthy q = false ->
  prolog_query w scryer facts_and_rules q =
  ([], "Error: Both 'facts_and_rules' and 'query' are required").
Proof.
  intros [H | H]; unfold prolog_query; rewrite H; cbn [negb orb];
    [|rewrite orb_true_r]; reflexivity.
Qed.


Lemma execute_timed_out (w : World) (self : Scryer)
    (prolog_code q path msg : string) :
  named_temporary_file w = Return path ->
  write w path (program_text prolog_code) = None ->
  subprocess_run w [scryer_path self; path; "-g"; goal_of q] (timeout self)
    = Raise (TimeoutExpired msg) ->
  snd (execute w self prolog_code q) =
  {| success := false;
     query := q;
     stdout := "";
     stderr := "Query timed out after " ++ str_int (timeout self) ++ " seconds";
     returncode := (-1)%Z |}.
Proof.
  intros Htmp Hw Hr. unfold execute, attempt.
  now rewrite Htmp, Hw, Hr.
Qed.



(** When the process runs out of time, the tool answers a failure that
    names the time limit. *)
Theorem prolog_query_timeout (w : World) (scryer : Scryer)
    (facts_and_rules q path msg : string) :
  truthy facts_and_rules = true -> truthy q = true ->
  named_temporary_file w = Return path ->
  write w path (program_text facts_and_rules) = None ->
  subprocess_run w [scryer_path scryer; path; "-g"; goal_of q] (timeout scryer)
    = Raise (TimeoutExpired msg) ->
  prolog_query w scryer facts_and_rules q =
  ([Created path; Written path (program_text facts_and_rules);
    Run [scryer_path scryer; path; "-g"; goal_of q] (timeout scryer)],
   "Query: " ++ q ++ nl ++ "Result: FAILED" ++ nl
   ++ "Error: Query timed out after " ++ str_int (timeout scryer) ++ " seconds").
Proof.
  intros Hf Hq Htmp Hw Hr. unfold prolog_query. rewrite Hf, Hq.
  cbn [negb orb]. unfold execute, attempt. now rewrite Htmp, Hw, Hr.
Qed.

(** ** Finding the executable *)

Lemma probe_ok_not_skipped (w : World) (path : string) :
  probe_ok w path -> probe_skipped w path -> False.
Proof.
  intros (r & Hr & Hz) [(r' & Hr' & Hz') | (msg & [H | [H | H]])];
    rewrite Hr in *; try discriminate.
  injection Hr' as <-. contradiction.
Qed.

Lemma probe_candidates_found (w : World) (paths : list string) (path : string) :
  probe_candidates w paths = Return path <->
  exists before after,
    paths = (before ++ path :: after)%list /\
    Forall (probe_skipped w) before /\ probe_ok w path.
Proof.
  induction paths as [|p paths IH]; cbn [probe_candidates].
  - split; [discriminate|]. intros (b & a & E & _). now destruct b.
  - destruct (subprocess_run w [p; "--version"] 2) as [r|e] eqn:Hr.
    + destruct (cp_returncode r =? 0)%Z eqn:Hz.
      * apply Z.eqb_eq in Hz. split.
        -- intros H. injection H as <-. exists [], paths.
           repeat split; [constructor|]. now exists r.
        -- intros ([|b0 b] & a & E & HF & Hok); injection E as -> E.
           ++ reflexivity.
           ++ exfalso. inversion HF; subst.
              apply (probe_ok_not_skipped w b0); [now exists r | assumption].
      * apply Z.eqb_neq in Hz. rewrite IH. split.
        -- intros (b & a & -> & HF & Hok). exists (p :: b), a.
           repeat split; [|exact Hok]. constructor; [|exact HF].
           left. now exists r.
        -- intros ([|b0 b] & a & E & HF & Hok); injection E as -> E.
           ++ exfalso. destruct Hok as (r' & Hr' & Hz').
              rewrite Hr in Hr'. injection Hr' as <-. contradiction.
           ++ inversion HF; subst. now exists b, a.
    + assert (Hnot : ~ probe_ok w p).
      { intros (r & Hr' & _). rewrite Hr in Hr'. discriminate. }
      destruct e as [m|m|m|m|m].
      1-3: rewrite IH; split;
        [ intros (b & a & -> & HF & Hok); exists (p :: b), a;
          repeat split; [|exact Hok]; constructor; [|exact HF];
          right; exists m; auto
        | intros ([|b0 b] & a & E & HF & Hok); injection E as -> E;
          [contradiction | inversion HF; subst; now exists b, a] ].
      all: split; [discriminate|];
        intros ([|b0 b] & a & E & HF & Hok); injection E as -> E;
        [contradiction|]; inversion HF as [|? ? Hs _]; subst;
        destruct Hs as [(r & Hr' & _) | (m' & [H | [H | H]])];
        rewrite Hr in *; discriminate.
Qed.

(** [_find_scryer] returns the first candidate whose probe exits with
    status zero, the candidates before it having been skipped; when every
    candidate is skipped it raises [RuntimeError]. *)
Theorem find_scryer_first_working (w : World) (cargo_bin : string) :
  (forall path,
     _find_scryer w cargo_bin = Return path <->
     exists before after,
       candidates cargo_bin = (before ++ path :: after)%list /\
       Forall (probe_skipped w) before /\ probe_ok w path) /\
  (Forall (probe_skipped w) (candidates cargo_bin) ->
   _find_scryer w cargo_bin =
   Raise (RuntimeError
     "Scryer Prolog not found. Install with: cargo install scryer-prolog")).
Proof.
  split.
  - intros path. apply probe_candidates_found.
  - unfold _find_scryer. generalize (candidates cargo_bin).
    induction 1 as [|p paths Hs _ IH]; cbn [probe_candidates]; [reflexivity|].
    destruct Hs as [(r & -> & Hz) | (m & [-> | [-> | ->]])]; try exact IH.
    apply Z.eqb_neq in Hz. now rewrite Hz.
Qed.

End PrologRuns.

(* ------------------------------------------------------------------ *)
(** * More concrete runs *)

Example queries_of_a_program :
  Agent._extract_queries_from_content
    (text "% family|parent(tom, bob).|parent(bob, ann).|grand(X, Z) :- parent(X, Y), parent(Y, Z).|happy :- parent(tom, _).|age(tom, 3)") =
  ["parent(_, _)"; "grand(_, _)"].
Proof. reflexivity. Qed.

Example program_of_code :
  Prolog.program_text
    (text "  :- initialization(main).|fact(a).   ||  ?- fact(X).|rule(X) :-|   fact(X).|  ") =
  text "fact(a).|rule(X) :-|fact(X).|".
Proof. reflexivity. Qed.

Example query_that_holds :
  Prolog.prolog_query
    (Prolog.system (Return {| Prolog.cp_returncode := 0;
                              Prolog.cp_stdout := "TRUE";
                              Prolog.cp_stderr := "" |}))
    Prolog.scryer_10 "fact(a)." "fact(a)" =
  ([Prolog.Created "/tmp/q.pro";
    Prolog.Written "/tmp/q.pro" (text "fact(a).|");
    Prolog.Run ["scryer-prolog"; "/tmp/q.pro"; "-g";
                "once((fact(a) -> write('TRUE') ; write('FALSE'))), halt"] 10;
    Prolog.Unlinked "/tmp/q.pro"],
   text "Query: fact(a)|Result: SUCCESS|Output: TRUE").
Proof. reflexivity. Qed.

(** The theorems at concrete inputs. *)

Lemma fragmentation_is_immaterial_witness :
  _patched_receive_messages Json.loads
    (transport [text "{'a':1}|{'b'"; text ":2}|"] [] (Some 0%Z)) unbound =
  _patched_receive_messages Json.loads
    (transport [text "{'a':1}|{'b':2}|"] [] (Some 0%Z)) unbound.
Proof.
  exact (fragmentation_is_immaterial Json.loads
           (transport [text "{'a':1}|{'b'"; text ":2}|"] [] (Some 0%Z))
           (transport [text "{'a':1}|{'b':2}|"] [] (Some 0%Z))
           {| returncode := Some 0%Z |}
           {| items := [text "{'a':1}|{'b'"; text ":2}|"]; stops := EndOfStream |}
           {| items := [text "{'a':1}|{'b':2}|"]; stops := EndOfStream |}
           unbound eq_refl eq_refl eq_refl eq_refl eq_refl eq_refl).
Defined.

Lemma blank_line_is_dropped_witness :
  _patched_receive_messages Json.loads
    (transport [text "{'a':1}|  |{'b':2}|"] [] (Some 0%Z)) unbound =
  _patched_receive_messages Json.loads
    (transport [text "{'a':1}|{'b':2}|"] [] (Some 0%Z)) unbound.
Proof.
  exact (blank_line_is_dropped Json.loads
           (transport [text "{'a':1}|  |{'b':2}|"] [] (Some 0%Z))
           (transport [text "{'a':1}|{'b':2}|"] [] (Some 0%Z))
           {| returncode := Some 0%Z |}
           {| items := [text "{'a':1}|  |{'b':2}|"]; stops := EndOfStream |}
           {| items := [text "{'a':1}|{'b':2}|"]; stops := EndOfStream |}
           [text "{'a':1}"] [doc_a] "  " (text "{'b':2}|") unbound
           eq_refl eq_refl eq_refl eq_refl eq_refl
           (consumed_line Json.loads (text "{'a':1}") [] doc_a []
              eq_refl eq_refl eq_refl (consumed_nil Json.loads))
           eq_refl eq_refl eq_refl eq_refl).
Defined.

Lemma document_over_lines_waits_for_close_witness :
  emitted Json.loads (transport [text "{'a':"; text "|1}|"] [] (Some 0%Z)) =
  [doc_a].
Proof.
  exact (proj1 (proj2 (document_over_lines_waits_for_close Json.loads
           (transport [text "{'a':"; text "|1}|"] [] (Some 0%Z))
           {| returncode := Some 0%Z |}
           {| items := [text "{'a':"; text "|1}|"]; stops := EndOfStream |}
           (text "{'a':") (text "1}|") Json.ExpectingValue doc_a
           eq_refl eq_refl eq_refl eq_refl eq_refl eq_refl eq_refl eq_refl))).
Defined.

Lemma no_parenthesis_default_query_witness :
  Agent._extract_queries_from_content (text "% nothing here|likes.") = ["true"].
Proof.
  exact (AgentFacts.no_parenthesis_default_query
           (text "% nothing here|likes.") eq_refl).
Defined.

Lemma skipped_line_is_immaterial_witness :
  Agent._extract_queries_from_content
    ("parent(tom, bob)." ++ nl ++ "% age(x)." ++ nl ++ "age(tom, 3).") =
  Agent._extract_queries_from_content
    ("parent(tom, bob)." ++ nl ++ "age(tom, 3).").
Proof.
  exact (AgentFacts.skipped_line_is_immaterial
           "parent(tom, bob)." "% age(x)." "age(tom, 3)."
           eq_refl (or_intror (or_introl eq_refl))).
Defined.


Lemma temporary_file_removed_iff_witness :
  In (Prolog.Created "/tmp/q.pro")
     (fst (Prolog.execute (Prolog.system (Raise (Prolog.TimeoutExpired "")))
             Prolog.scryer_10 "fact(a)." "fact(a)")) /\
  ~ In (Prolog.Unlinked "/tmp/q.pro")
       (fst (Prolog.execute (Prolog.system (Raise (Prolog.TimeoutExpired "")))
               Prolog.scryer_10 "fact(a)." "fact(a)")).
Proof.
  destruct (PrologRuns.temporary_file_removed_iff
              (Prolog.system (Raise (Prolog.TimeoutExpired "")))
              Prolog.scryer_10 "fact(a)." "fact(a)" "/tmp/q.pro" eq_refl)
    as [H1 H2].
  split; [exact H1|]. intros H. apply H2 in H as (_ & (done & H) & _).
  discriminate H.
Defined.

Lemma prolog_query_requires_both_witness :
  Prolog.prolog_query (Prolog.system (Raise (Prolog.TimeoutExpired "")))
    Prolog.scryer_10 "fact(a)." "" =
  ([], "Error: Both 'facts_and_rules' and 'query' are required").
Proof.
  exact (PrologRuns.prolog_query_requires_both
           (Prolog.system (Raise (Prolog.TimeoutExpired "")))
           Prolog.scryer_10 "fact(a)." "" (or_intror eq_refl)).
Defined.


Lemma prolog_query_timeout_witness :
  snd (Prolog.prolog_query
         (Prolog.system (Raise (Prolog.TimeoutExpired "timed out")))
         Prolog.scryer_10 "loop :- loop." "loop") =
  text "Query: loop|Result: FAILED|Error: Query timed out after 10 seconds".
Proof.
  exact (f_equal snd (PrologRuns.prolog_query_timeout
           (Prolog.system (Raise (Prolog.TimeoutExpired "timed out")))
           Prolog.scryer_10 "loop :- loop." "loop" "/tmp/q.pro" "timed out"
           eq_refl eq_refl eq_refl eq_refl eq_refl)).
Defined.

Lemma find_scryer_first_working_witness :
  exists before after,
    Prolog.candidates "/home/u/.cargo/bin/scryer-prolog" =
    (before ++ "/usr/bin/scryer-prolog" :: after)%list /\
    Forall (Prolog.probe_skipped Prolog.system_with_usr_bin) before /\
    Prolog.probe_ok Prolog.system_with_usr_bin "/usr/bin/scryer-prolog".
Proof.
  exact (proj1 (proj1 (PrologRuns.find_scryer_first_working
                         Prolog.system_with_usr_bin
                         "/home/u/.cargo/bin/scryer-prolog")
                  "/usr/bin/scryer-prolog") eq_refl).
Defined.
